(** * JAX-Learning: the jitting notebook and the optax toy training notebook

    A shallow embedding of the Python cells of

    - [JAX_docs/02-jitting.ipynb]: the functions [f], [g], [loop_body],
      [g_inner_jitted] and their [jax.jit] variants, the functions traced
      with [jax.make_jaxpr] ([log2], [log2_with_print], [log2_if_rank_2])
      and [selu];
    - the optax quick-start notebook: data generation, [net], [loss],
      [fit] and the two optimizer configurations.

    Python integers are unbounded ([Z]); JAX integers are 32-bit with
    wrap-around; float32 tensors are idealised as lists of real numbers. *)

From Stdlib Require Import ZArith QArith Reals Lra Lia.
From stdpp Require Import base option list gmap strings.

(** ** Part I. Definitions *)

Module Jitting.

Open Scope Z_scope.

(** *** Outcomes of running a Python cell *)

Inductive exn :=
| ConcretizationTypeError
| OverflowError.

(** [OutOfFuel] is not a Python outcome: it only says that the bound given
    to a [while] loop of the model was too small.  [Unmodelled] marks the
    calls the notebook never makes and the model says nothing about. *)
Inductive result (A : Type) :=
| Ok (a : A)
| Raise (e : exn)
| OutOfFuel
| Unmodelled.
Arguments Ok {A} a.
Arguments Raise {A} e.
Arguments OutOfFuel {A}.
Arguments Unmodelled {A}.

#[global] Instance result_ret : MRet result := @Ok.
#[global] Instance result_bind : MBind result := λ A B k m,
  match m with
  | Ok a => k a
  | Raise e => Raise e
  | OutOfFuel => OutOfFuel
  | Unmodelled => Unmodelled
  end.
#[global] Instance result_fmap : FMap result := λ A B k m,
  match m with
  | Ok a => Ok (k a)
  | Raise e => Raise e
  | OutOfFuel => OutOfFuel
  | Unmodelled => Unmodelled
  end.

(** *** 32-bit integers of the compiled code *)

Definition INT32_MIN : Z := - 2 ^ 31.
Definition INT32_MAX : Z := 2 ^ 31 - 1.

Definition in_int32 (z : Z) : bool := (INT32_MIN <=? z) && (z <=? INT32_MAX).

(** Two's complement wrap-around of XLA's int32 arithmetic. *)
Definition wrap32 (z : Z) : Z := (z + 2 ^ 31) mod 2 ^ 32 - 2 ^ 31.

(** *** Jaxprs: what a trace records *)

Inductive binop := Add | Mul | Gt | Lt.

Inductive jaxpr :=
| JVar (i : nat)                      (* the i-th argument of the call *)
| JLit (z : Z)                        (* an int32 or bool (0/1) constant *)
| JOp (op : binop) (a b : jaxpr).

Definition is_comparison (op : binop) : bool :=
  match op with Gt | Lt => true | Add | Mul => false end.

Definition eval_binop (op : binop) (x y : Z) : Z :=
  match op with
  | Add => wrap32 (x + y)
  | Mul => wrap32 (x * y)
  | Gt => Z.b2z (y <? x)
  | Lt => Z.b2z (x <? y)
  end.

Fixpoint eval (env : list Z) (e : jaxpr) : Z :=
  match e with
  | JVar i => nth i env 0
  | JLit z => z
  | JOp op a b => eval_binop op (eval env a) (eval env b)
  end.

(** *** Python values of the notebook *)

Inductive value :=
| PyInt (z : Z)              (* Python int, unbounded *)
| PyBool (b : bool)
| Arr (z : Z)                (* jax Array, dtype int32, concrete *)
| ArrBool (b : bool)         (* jax Array, dtype bool, concrete *)
| Tracer (e : jaxpr)         (* Traced<ShapedArray(int32[])> *)
| TracerBool (e : jaxpr).    (* Traced<ShapedArray(bool[])> *)

Definition is_tracer (v : value) : bool :=
  match v with Tracer _ | TracerBool _ => true | _ => false end.

(** Plain Python numbers: [bool] is a subtype of [int]. *)
Definition py_num (v : value) : option Z :=
  match v with
  | PyInt z => Some z
  | PyBool b => Some (Z.b2z b)
  | _ => None
  end.

(** The integer a concrete value denotes (what [print] shows). *)
Definition int_of (v : value) : option Z :=
  match v with
  | PyInt z | Arr z => Some z
  | PyBool b | ArrBool b => Some (Z.b2z b)
  | Tracer _ | TracerBool _ => None
  end.

(** An operand of a JAX primitive.  A Python int must fit int32. *)
Definition to_jax (v : value) : result jaxpr :=
  match v with
  | PyInt z => if in_int32 z then Ok (JLit z) else Raise OverflowError
  | PyBool b | ArrBool b => Ok (JLit (Z.b2z b))
  | Arr z => Ok (JLit z)
  | Tracer e | TracerBool e => Ok e
  end.

Definition python_binop (op : binop) (x y : Z) : value :=
  match op with
  | Add => PyInt (x + y)
  | Mul => PyInt (x * y)
  | Gt => PyBool (y <? x)
  | Lt => PyBool (x <? y)
  end.

(** [a op b].  Between Python numbers it is Python's own arithmetic.  As
    soon as one side is a JAX array the operation is a JAX primitive: run
    at once on concrete arrays, recorded in the jaxpr when a side is a
    tracer. *)
Definition py_binop (op : binop) (a b : value) : result value :=
  match py_num a, py_num b with
  | Some x, Some y => Ok (python_binop op x y)
  | _, _ =>
    ea ← to_jax a;
    eb ← to_jax b;
    let e := JOp op ea eb in
    Ok (if is_tracer a || is_tracer b
        then (if is_comparison op then TracerBool e else Tracer e)
        else (if is_comparison op then ArrBool (eval [] e =? 1)
              else Arr (eval [] e)))
  end.

(** [bool(v)], as called by [if] and [while].  A tracer has a shape and a
    dtype but no value. *)
Definition py_bool (v : value) : result bool :=
  match v with
  | PyInt z | Arr z => Ok (negb (z =? 0))
  | PyBool b | ArrBool b => Ok b
  | Tracer _ | TracerBool _ => Raise ConcretizationTypeError
  end.

(** A native [while cond(s): s = body(s)], bounded by [fuel] iterations. *)
Fixpoint py_while {S : Type} (fuel : nat) (cond : S → result value)
    (body : S → result S) (s : S) : result S :=
  match fuel with
  | O => OutOfFuel
  | Datatypes.S fuel' =>
    c ← cond s;
    b ← py_bool c;
    if b : bool then s' ← body s; py_while fuel' cond body s' else Ok s
  end.

(** *** [jax.jit] *)

(** A Python [def]: its parameter names and its body. *)
Record pydef := PyDef {
  argnames : list string;
  body : list value → result value;
}.

(** The tracer that stands for the [i]-th argument of a jitted call. *)
Definition abstractify (i : nat) (v : value) : result value :=
  match v with
  | PyInt z => if in_int32 z then Ok (Tracer (JVar i)) else Raise OverflowError
  | Arr _ => Ok (Tracer (JVar i))
  | PyBool _ | ArrBool _ => Ok (TracerBool (JVar i))
  | Tracer _ | TracerBool _ => Unmodelled
  end.

(** A static argument is passed to the Python body as it is. *)
Definition static_arg (v : value) : result value :=
  match v with
  | PyInt _ | PyBool _ => Ok v
  | _ => Unmodelled
  end.

Definition index_of (name : string) (names : list string) : option nat :=
  fst <$> list_find (λ s, s = name) names.

Definition static_positions (fn : pydef) (static_argnums : list nat)
    (static_argnames : list string) : list nat :=
  static_argnums ++ omap (λ s, index_of s (argnames fn)) static_argnames.

(** What the Python body receives while the call is traced. *)
Definition trace_args (static : list nat) (args : list value)
    : result (list value) :=
  mapM (λ r, r)
    (imap (λ i v, if bool_decide (i ∈ static) then static_arg v
                  else abstractify i v) args).

(** Calling [jax.jit(fn, static_argnums, static_argnames)] on [args]: the
    Python body runs once on tracers (on the values themselves at static
    positions), the recorded jaxpr is compiled and run on the arguments.
    The compilation cache is left out: the bodies are pure, so a cached
    jaxpr is the one a new trace would record. *)
Definition jit (fn : pydef) (static_argnums : list nat)
    (static_argnames : list string) (args : list value) : result value :=
  let static := static_positions fn static_argnums static_argnames in
  targs ← trace_args static args;
  out ← body fn targs;
  e ← to_jax out;
  let r := eval (default 0 ∘ int_of <$> args) e in
  Ok (match out with
      | PyBool _ | ArrBool _ | TracerBool _ => ArrBool (r =? 1)
      | _ => Arr r
      end).

(** *** The cells *)

(** <<
def f(x):
  if x > 0:
    return x
  else:
    return 2 * x
>> *)
Definition f_body (x : value) : result value :=
  c ← py_binop Gt x (PyInt 0);
  b ← py_bool c;
  if b : bool then Ok x else py_binop Mul (PyInt 2) x.

Definition f : pydef :=
  PyDef ["x"] (λ args, match args with [x] => f_body x | _ => Unmodelled end).

(** <<
def g(x, n):
  i = 0
  while i < n:
    i += 1
  return x + i
>> *)
Definition g_body (fuel : nat) (x n : value) : result value :=
  i ← py_while fuel (λ i, py_binop Lt i n)
                    (λ i, py_binop Add i (PyInt 1)) (PyInt 0);
  py_binop Add x i.

Definition g (fuel : nat) : pydef :=
  PyDef ["x"; "n"]
    (λ args, match args with [x; n] => g_body fuel x n | _ => Unmodelled end).

(** [f_jit = jax.jit(f)] and [g_jit = jax.jit(g)]. *)
Definition f_jit : list value → result value := jit f [] [].
Definition g_jit (fuel : nat) : list value → result value := jit (g fuel) [] [].

(** <<
@jax.jit
def loop_body(prev_i):
  return prev_i + 1
>> *)
Definition loop_body : list value → result value :=
  jit (PyDef ["prev_i"]
         (λ args, match args with
                  | [prev_i] => py_binop Add prev_i (PyInt 1)
                  | _ => Unmodelled
                  end)) [] [].

(** <<
def g_inner_jitted(x, n):
  i = 0
  while i < n:
    i = loop_body(i)
  return x + i
>> *)
Definition g_inner_jitted (fuel : nat) (x n : value) : result value :=
  i ← py_while fuel (λ i, py_binop Lt i n) (λ i, loop_body [i]) (PyInt 0);
  py_binop Add x i.

(** [f_jit_correct = jax.jit(f, static_argnums=0)] and
    [g_jit_correct = jax.jit(g, static_argnames=['n'])]. *)
Definition f_jit_correct : list value → result value := jit f [0%nat] [].
Definition g_jit_correct (fuel : nat) : list value → result value :=
  jit (g fuel) [] ["n"].

(** <<
@partial(jax.jit, static_argnames=['n'])
def g_jit_decorated(x, n):
  i = 0
  while i < n:
    i += 1
  return x + i
>> *)
Definition g_jit_decorated (fuel : nat) : list value → result value :=
  jit (PyDef ["x"; "n"]
         (λ args,
            match args with
            | [x; n] =>
              i ← py_while fuel (λ i, py_binop Lt i n)
                                (λ i, py_binop Add i (PyInt 1)) (PyInt 0);
              py_binop Add x i
            | _ => Unmodelled
            end)) [] ["n"].

(** <<
def unjitted_loop_body(prev_i):
  return prev_i + 1
>> *)
Definition unjitted_loop_body (prev_i : value) : result value :=
  py_binop Add prev_i (PyInt 1).

(** The loop body of the three functions below: [jax.jit(callable)(i)] for
    a callable of one argument that calls [unjitted_loop_body].  What
    differs between them is the identity of the callable, which the
    compilation cache (left out here) is keyed on. *)
Definition jit_in_loop (argname : string) (i : value) : result value :=
  jit (PyDef [argname]
         (λ args, match args with
                  | [a] => unjitted_loop_body a
                  | _ => Unmodelled
                  end)) [] [] [i].

(** <<
def g_inner_jitted_partial(x, n):
  i = 0
  while i < n:
    i = jax.jit(partial(unjitted_loop_body))(i)
  return x + i
>> *)
Definition g_inner_jitted_partial (fuel : nat) (x n : value) : result value :=
  i ← py_while fuel (λ i, py_binop Lt i n) (jit_in_loop "prev_i") (PyInt 0);
  py_binop Add x i.

(** <<
def g_inner_jitted_lambda(x, n):
  i = 0
  while i < n:
    i = jax.jit(lambda x: unjitted_loop_body(x))(i)
  return x + i
>> *)
Definition g_inner_jitted_lambda (fuel : nat) (x n : value) : result value :=
  i ← py_while fuel (λ i, py_binop Lt i n) (jit_in_loop "x") (PyInt 0);
  py_binop Add x i.

(** <<
def g_inner_jitted_normal(x, n):
  i = 0
  while i < n:
    i = jax.jit(unjitted_loop_body)(i)
  return x + i
>> *)
Definition g_inner_jitted_normal (fuel : nat) (x n : value) : result value :=
  i ← py_while fuel (λ i, py_binop Lt i n) (jit_in_loop "prev_i") (PyInt 0);
  py_binop Add x i.

End Jitting.

Module Tracing.

Open Scope R_scope.

(** *** Arrays and what a tracer knows of them

    In this part an outcome [None] says that the call is outside the
    model: arithmetic on integer arrays, results that are [nan] or
    infinite, broadcasting other than with a scalar, a trace inside a
    trace.  The functions of this part of the notebook raise no
    exception.  float32 is idealised as the real numbers, and the weak
    types of Python scalars are left out. *)

Inductive dtype := f32 | i32 | bool_.

#[export] Instance dtype_eq_dec : EqDecision dtype.
Proof. solve_decision. Defined.

(** [ShapedArray(shape, dtype)]: a dtype and a shape, no values. *)
Record ShapedArray := Shaped { dtype_of : dtype; shape_of : list nat }.

#[export] Instance ShapedArray_eq_dec : EqDecision ShapedArray.
Proof. solve_decision. Defined.

(** A concrete array: its shape and its elements in row-major order.  A
    Python or JAX scalar has shape [[]] and one element. *)
Inductive ndarray :=
| F32 (shape : list nat) (data : list R)
| I32 (shape : list nat) (data : list Z)
| Bool (shape : list nat) (data : list bool).

Definition abstractify (a : ndarray) : ShapedArray :=
  match a with
  | F32 shape _ => Shaped f32 shape
  | I32 shape _ => Shaped i32 shape
  | Bool shape _ => Shaped bool_ shape
  end.


(** *** Jaxprs *)

Definition var := nat.

Inductive atom :=
| Var (v : var)
| Literal (r : R).                     (* a float scalar, as in [log 2.0] *)

Inductive primitive := log_p | exp_p | div_p | mul_p | sub_p | gt_p | select_n_p.

(** An equation [outvar:aval = prim invars]. *)
Record eqn := Eqn {
  eqn_outvar : var;
  eqn_aval : ShapedArray;
  eqn_primitive : primitive;
  eqn_invars : list atom;
}.

(** [{ lambda ; invars . let eqns in outvars }] *)
Record Jaxpr := MkJaxpr {
  invars : list (var * ShapedArray);
  eqns : list eqn;
  outvars : list atom;
}.

#[export] Instance Rlt_decision (x y : R) : Decision (x < y) := Rlt_dec x y.
#[export] Instance Req_decision : EqDecision R := Req_dec_T.

(** The shape of an element-wise operation on two arrays: they have one
    shape, or one of them is a scalar. *)
Definition broadcast_shapes (sa sb : list nat) : option (list nat) :=
  if decide (sb = []) then Some sa
  else if decide (sa = []) then Some sb
  else if decide (sa = sb) then Some sa
  else None.

Definition broadcast {A : Type} (op : R → R → A)
    (sa : list nat) (da : list R) (sb : list nat) (db : list R)
    : option (list A) :=
  if decide (sb = []) then
    match db with [y] => Some ((λ x, op x y) <$> da) | _ => None end
  else if decide (sa = []) then
    match da with [x] => Some (op x <$> db) | _ => None end
  else if decide (sa = sb) then Some (zip_with op da db)
  else None.


Definition binary (op : R → R → R) (sa : list nat) (da : list R)
    (sb : list nat) (db : list R) : option ndarray :=
  s ← broadcast_shapes sa sb;
  d ← broadcast op sa da sb db;
  Some (F32 s d).

(** What each primitive computes.  [select_n pred on_false on_true]. *)
Definition impl (p : primitive) (args : list ndarray) : option ndarray :=
  match p, args with
  | log_p, [F32 s d] =>
    if decide (Forall (λ v, 0 < v) d) then Some (F32 s (ln <$> d)) else None
  | exp_p, [F32 s d] => Some (F32 s (exp <$> d))
  | div_p, [F32 sa da; F32 sb db] =>
    if decide (Forall (λ v, v ≠ 0) db) then binary Rdiv sa da sb db else None
  | mul_p, [F32 sa da; F32 sb db] => binary Rmult sa da sb db
  | sub_p, [F32 sa da; F32 sb db] => binary Rminus sa da sb db
  | gt_p, [F32 sa da; F32 sb db] =>
    s ← broadcast_shapes sa sb;
    d ← broadcast (λ x y, bool_decide (y < x)) sa da sb db;
    Some (Bool s d)
  | select_n_p, [Bool s c; F32 s0 d0; F32 s1 d1] =>
    if decide (s0 = s ∧ s1 = s)
    then Some (F32 s (zip_with (λ (c : bool) ft, if c then ft.2 else ft.1)
                               c (zip d0 d1)))
    else None
  | _, _ => None
  end.

Definition read_atom (env : gmap var ndarray) (a : atom) : option ndarray :=
  match a with
  | Var v => env !! v
  | Literal r => Some (F32 [] [r])
  end.

Fixpoint eval_eqns (env : gmap var ndarray) (es : list eqn)
    : option (gmap var ndarray) :=
  match es with
  | [] => Some env
  | e :: es =>
    args ← mapM (read_atom env) (eqn_invars e);
    out ← impl (eqn_primitive e) args;
    eval_eqns (<[eqn_outvar e := out]> env) es
  end.

(** [jax.core.eval_jaxpr]: the equations in order, on arguments of the
    shapes and dtypes the jaxpr was made for. *)
Definition eval_jaxpr (jaxpr : Jaxpr) (args : list ndarray)
    : option (list ndarray) :=
  if decide (abstractify <$> args = (invars jaxpr).*2) then
    env ← eval_eqns (list_to_map (zip (invars jaxpr).*1 args)) (eqns jaxpr);
    mapM (read_atom env) (outvars jaxpr)
  else None.

(** *** Python values and the state of the interpreter *)

Inductive value :=
| Concrete (a : ndarray)
| Tracer (v : var) (aval : ShapedArray).   (* Traced<ShapedArray(...)> *)




(** A [print(label, x)]. *)
Record printed := Printed { printed_label : string; printed_value : value }.

(** The trace under way: the next variable and the equations so far. *)
Record trace := Trace { next_var : var; recorded : list eqn }.

Record state := State {
  global_list : list value;
  stdout : list printed;
  tracing : option trace;
}.

Definition T (A : Type) : Type := state → option (A * state).

#[export] Instance T_ret : MRet T := λ A a s, Some (a, s).

Definition concrete (x : value) : option ndarray :=
  match x with
  | Concrete a => Some a
  | Tracer _ _ => None
  end.

(** How a value enters an equation: a tracer as its variable, a float
    scalar as a literal. *)
Definition atom_of (x : value) : option (atom * ShapedArray) :=
  match x with
  | Tracer v aval => Some (Var v, aval)
  | Concrete (F32 [] [r]) => Some (Literal r, Shaped f32 [])
  | Concrete _ => None
  end.


(** [jax.make_jaxpr(fn)(x)]: [fn] is called on a tracer that stands for
    [x]; the equations recorded during the call are the jaxpr. *)
Definition make_jaxpr (fn : value → T value) (x : ndarray) : T Jaxpr := λ s,
  match tracing s with
  | Some _ => None
  | None =>
    let aval := abstractify x in
    '(out, s') ← fn (Tracer 0%nat aval)
                    (State (global_list s) (stdout s) (Some (Trace 1%nat [])));
    tr ← tracing s';
    '(out, _) ← atom_of out;
    Some (MkJaxpr [(0%nat, aval)] (recorded tr) [out],
          State (global_list s') (stdout s') None)
  end.

(** [jax.jit(fn)(x)] on a first call: trace, then run the jaxpr.  (A
    later call on the same shape runs the compiled jaxpr without calling
    [fn]; the cache is not modelled.) *)
Definition jit (fn : value → T value) (x : value) : T value := λ s,
  a ← concrete x;
  '(jaxpr, s') ← make_jaxpr fn a s;
  outs ← eval_jaxpr jaxpr [a];
  match outs with
  | [out] => Some (Concrete out, s')
  | _ => None
  end.

(** *** The cells *)



Definition print (label : string) (x : value) : T unit := λ s,
  Some (tt, State (global_list s) (stdout s ++ [Printed label x]) (tracing s)).







End Tracing.

Module Training.

Open Scope R_scope.

(** *** Tensors

    A float32 array is a list (of lists) of reals: rounding is not
    modelled.  [None] stands for a Python exception (a shape mismatch, a
    missing key). *)

Abbreviation vector := (list R) (only parsing).
Abbreviation matrix := (list (list R)) (only parsing).
Abbreviation pytree := (gmap string (list (list R))) (only parsing).

(** The row lengths of a 2-D array; a [r]-by-[c] array has [replicate r c]. *)
Definition row_lengths {A : Type} (m : list (list A)) : list nat := length <$> m.

Definition has_shape {A : Type} (r c : nat) (m : list (list A)) : Prop :=
  row_lengths m = replicate r c.

#[global] Instance has_shape_dec {A : Type} (r c : nat) (m : list (list A)) :
  Decision (has_shape r c m).
Proof. unfold has_shape. apply _. Defined.

(** Element-wise application over a 2-D array, and over the vectors along
    the last axis of a 3-D array. *)
Definition map2d {A B : Type} (op : A → B) (m : list (list A)) : list (list B) :=
  (λ row : list A, op <$> row) <$> m.

Definition map3 {A B : Type} (op : list A → list B) (t : list (list (list A)))
    : list (list (list B)) :=
  (λ m : list (list A), op <$> m) <$> t.

Definition col (j : nat) (m : matrix) : vector := (λ row, nth j row 0) <$> m.

Definition sum (v : vector) : R := foldr Rplus 0 v.

(** [.mean()] of a non-empty 1-D array. *)
Definition mean (v : vector) : R := sum v / INR (length v).

Definition vdot (u v : vector) : R := sum (zip_with Rmult u v).

(** [jnp.dot(a, b)] of two 2-D arrays: [a] is [n]-by-[k], [b] is
    [k]-by-[m] with [k > 0] (a list of rows cannot tell the width of an
    array without rows); anything else raises. *)
Definition dot (a b : matrix) : option matrix :=
  match b with
  | [] => None
  | b0 :: _ =>
    if decide (has_shape (length a) (length b) a
               ∧ has_shape (length b) (length b0) b)
    then Some ((λ row, (λ j, vdot row (col j b)) <$> seq 0 (length b0)) <$> a)
    else None
  end.

(** [jax.nn.relu]. *)
Definition relu (x : R) : R := Rmax x 0.

(** An element-wise binary operation on two arrays of one shape
    (broadcasting of different shapes is not modelled: it fails here). *)
Definition map2 (op : R → R → R) (a b : matrix) : option matrix :=
  if decide (row_lengths a = row_lengths b)
  then Some (zip_with (zip_with op) a b)
  else None.

(** *** Cell 1: the training data *)

Definition BATCH_SIZE : nat := 5.
Definition NUM_TRAIN_STEPS : nat := 1000.

(** What [np.random.randint(high, size=(d0, d1, d2))] may return: any
    array of that shape with entries in [[0, high)]. *)
Definition randint (high : Z) (d0 d1 d2 : nat) (a : list (list (list Z))) : Prop :=
  length a = d0 ∧
  Forall (λ m, length m = d1 ∧
    Forall (λ v, length v = d2 ∧ Forall (λ z, (0 ≤ z < high)%Z) v) m) a.

(** [.astype(np.uint8)]. *)
Definition astype_uint8 (z : Z) : Z := (z mod 256)%Z.

(** [np.unpackbits] of one byte: 8 bits, most significant first. *)
Definition unpackbits1 (z : Z) : list Z :=
  (λ k, Z.b2z (Z.testbit z k)) <$> [7; 6; 5; 4; 3; 2; 1; 0]%Z.

(** The number a list of bits denotes when read most significant bit
    first (not in the notebook: it says what the order of the bits means). *)
Definition packbits (bits : list Z) : Z := foldl (λ acc b, 2 * acc + b)%Z 0%Z bits.

(** [np.unpackbits(a, axis=-1)]: along the last axis every byte becomes
    its 8 bits. *)
Definition unpackbits (v : list Z) : list Z := v ≫= unpackbits1.

(** [jax.nn.one_hot(k, num_classes)] for one index. *)
Definition one_hot (num_classes : nat) (k : Z) : vector :=
  (λ c, if decide (Z.of_nat c = k) then 1 else 0) <$> seq 0 num_classes.

(** [count] consecutive pieces of [size] elements. *)
Fixpoint chunks {A : Type} (count size : nat) (l : list A) : list (list A) :=
  match count with
  | O => []
  | S count' => take size l :: chunks count' size (drop size l)
  end.

(** [.reshape(d0, d1, d2)] of an array given by its elements in row-major
    order. *)
Definition reshape3 (d0 d1 d2 : nat) (flat : vector) : option (list matrix) :=
  if decide (length flat = d0 * d1 * d2)%nat
  then Some (chunks d0 d1 (chunks (d0 * d1) d2 flat))
  else None.

(** [TRAINING_DATA = np.unpackbits(RAW_TRAINING_DATA.astype(np.uint8), axis=-1)] *)
Definition TRAINING_DATA (RAW_TRAINING_DATA : list (list (list Z)))
    : list (list (list Z)) :=
  map3 unpackbits (map3 (fmap astype_uint8) RAW_TRAINING_DATA).

(** [LABELS = jax.nn.one_hot(RAW_TRAINING_DATA % 2, 2).astype(jnp.float32)
             .reshape(NUM_TRAIN_STEPS, BATCH_SIZE, 2)] *)
Definition LABELS (RAW_TRAINING_DATA : list (list (list Z)))
    : option (list matrix) :=
  let one_hots : list (list (list vector)) :=
    map3 (fmap (λ z, one_hot 2 (z mod 2)%Z)) RAW_TRAINING_DATA in
  reshape3 NUM_TRAIN_STEPS BATCH_SIZE 2 (concat (concat (concat one_hots))).

(** *** Cell 2: parameters, network and loss *)

(** [jax.random.normal(shape=[rows, cols], key=jax.random.PRNGKey(seed))]:
    [sample seed i j] is the entry the generator gives at [(i, j)]. *)
Definition random_normal (sample : Z → nat → nat → R) (rows cols : nat)
    (seed : Z) : matrix :=
  (λ i, sample seed i <$> seq 0 cols) <$> seq 0 rows.

Definition initial_params (sample : Z → nat → nat → R) : pytree :=
  {[ "hidden" := random_normal sample 8 32 0;
     "output" := random_normal sample 32 2 1 ]}.

(** <<
def net(x, params):
  x = jnp.dot(x, params['hidden'])
  x = jax.nn.relu(x)
  x = jnp.dot(x, params['output'])
  return x
>> *)
Definition net (x : matrix) (params : pytree) : option matrix :=
  hidden ← params !! "hidden";
  x ← dot x hidden;
  let x := map2d relu x in
  output ← params !! "output";
  x ← dot x output;
  Some x.

(** [jax.nn.log_sigmoid]. *)
Definition log_sigmoid (x : R) : R := - ln (1 + exp (- x)).

(** [optax.sigmoid_binary_cross_entropy] on one logit and one label. *)
Definition sigmoid_binary_cross_entropy (logit label : R) : R :=
  let log_p := log_sigmoid logit in
  let log_not_p := log_sigmoid (- logit) in
  - label * log_p - (1 - label) * log_not_p.

(** <<
def loss(params, batch, labels):
  y_hat = net(batch, params)
  loss_value = optax.sigmoid_binary_cross_entropy(y_hat, labels).sum(axis=-1)
  return loss_value.mean()
>> *)
Definition loss (params : pytree) (batch labels : matrix) : option R :=
  y_hat ← net batch params;
  bce ← map2 sigmoid_binary_cross_entropy y_hat labels;
  let loss_value := sum <$> bce in
  Some (mean loss_value).

(** Index notation, to state what the array operations compute: the
    entry [(i, j)] of a 2-D array and the sum of [f 0 .. f (n-1)]. *)
Definition entry (m : matrix) (i j : nat) : R := nth j (nth i m []) 0.

Definition big_sum (n : nat) (f : nat → R) : R := sum (f <$> seq 0 n).

(** *** optax: gradient transformations

    The optax functions the notebook calls, after the library's
    definitions.  A pytree is a dict of 2-D arrays. *)

Definition tree_shape (t : pytree) : gmap string (list nat) := row_lengths <$> t.

(** [jax.tree_util.tree_map(op, t)] with an element-wise [op]. *)
Definition tree_map (op : R → R) (t : pytree) : pytree := map2d op <$> t.

(** [jax.tree_util.tree_map(op, a, b)]: the two trees must have the same
    keys, and the leaves the same shapes. *)
Definition tree_map2 (op : R → R → R) (a b : pytree) : option pytree :=
  if decide (tree_shape a = tree_shape b)
  then Some (map_zip_with (zip_with (zip_with op)) a b)
  else None.

Definition zeros_like (t : pytree) : pytree := tree_map (λ _, 0) t.

(** [optax.apply_updates]. *)
Definition apply_updates (params updates : pytree) : option pytree :=
  tree_map2 (λ p u, p + u) params updates.

(** [optax.GradientTransformation]: [update grads state params]. *)
Record GradientTransformation := {
  OptState : Type;
  init : pytree → OptState;
  update : pytree → OptState → pytree → option (pytree * OptState);
}.

Definition safe_int32_increment (count : Z) : Z :=
  if (count <? 2147483647)%Z then (count + 1)%Z else 2147483647%Z.

Definition identity : GradientTransformation := {|
  OptState := unit;
  init := λ _, tt;
  update := λ updates state _, Some (updates, state);
|}.

Definition chain2 (a b : GradientTransformation) : GradientTransformation := {|
  OptState := OptState a * OptState b;
  init := λ params, (init a params, init b params);
  update := λ updates state params,
    '(updates, sa) ← update a updates state.1 params;
    '(updates, sb) ← update b updates state.2 params;
    Some (updates, (sa, sb));
|}.

(** [optax.chain(t1, t2, ...)]: the transformations are applied in the order
    given, each on the output of the one before it. *)
Definition chain (ts : list GradientTransformation) : GradientTransformation :=
  foldr chain2 identity ts.

(** [jnp.clip(x, lo, hi)]. *)
Definition jnp_clip (x lo hi : R) : R := Rmin (Rmax x lo) hi.

(** [optax.clip(max_delta)]. *)
Definition clip (max_delta : R) : GradientTransformation := {|
  OptState := unit;
  init := λ _, tt;
  update := λ updates state _,
    Some (tree_map (λ g, jnp_clip g (- max_delta) max_delta) updates, state);
|}.

(** [optax.scale(step_size)]. *)
Definition scale (step_size : R) : GradientTransformation := {|
  OptState := unit;
  init := λ _, tt;
  update := λ updates state _,
    Some (tree_map (λ g, step_size * g) updates, state);
|}.

(** [optax.scale_by_schedule(step_size_fn)]; the state is the step count. *)
Definition scale_by_schedule (step_size_fn : Z → R) : GradientTransformation := {|
  OptState := Z;
  init := λ _, 0%Z;
  update := λ updates count _,
    let step_size := step_size_fn count in
    Some (tree_map (λ g, step_size * g) updates, safe_int32_increment count);
|}.

Inductive learning_rate :=
| Constant (lr : R)
| Schedule (fn : Z → R).

Definition scale_by_learning_rate (lr : learning_rate) : GradientTransformation :=
  match lr with
  | Constant lr => scale (- lr)
  | Schedule fn => scale_by_schedule (λ count, - fn count)
  end.

(** [optax.scale_by_adam(b1, b2, eps, eps_root)]; the state is
    [(count, mu, nu)]. *)
Definition scale_by_adam (b1 b2 eps eps_root : R) : GradientTransformation := {|
  OptState := Z * pytree * pytree;
  init := λ params, (0%Z, zeros_like params, zeros_like params);
  update := λ updates state _,
    let '(count, mu, nu) := state in
    mu ← tree_map2 (λ g t, (1 - b1) * g + b1 * t) updates mu;
    nu ← tree_map2 (λ g t, (1 - b2) * g ^ 2 + b2 * t) updates nu;
    let count_inc := safe_int32_increment count in
    let mu_hat := tree_map (λ t, t / (1 - b1 ^ Z.to_nat count_inc)) mu in
    let nu_hat := tree_map (λ t, t / (1 - b2 ^ Z.to_nat count_inc)) nu in
    updates ← tree_map2 (λ m v, m / (sqrt (v + eps_root) + eps)) mu_hat nu_hat;
    Some (updates, (count_inc, mu, nu));
|}.

(** [optax.add_decayed_weights(weight_decay)]. *)
Definition add_decayed_weights (weight_decay : R) : GradientTransformation := {|
  OptState := unit;
  init := λ _, tt;
  update := λ updates state params,
    updates ← tree_map2 (λ g p, g + weight_decay * p) updates params;
    Some (updates, state);
|}.

(** [optax.adam(learning_rate)], with the library's defaults. *)
Definition adam (lr : learning_rate) : GradientTransformation :=
  chain [scale_by_adam 0.9 0.999 1e-8 0; scale_by_learning_rate lr].

(** [optax.adamw(learning_rate)], with the library's defaults. *)
Definition adamw (lr : learning_rate) : GradientTransformation :=
  chain [scale_by_adam 0.9 0.999 1e-8 0; add_decayed_weights 1e-4;
         scale_by_learning_rate lr].

(** *** optax: schedules *)

Definition linear_schedule (init_value end_value : R) (transition_steps : Z)
    (count : Z) : R :=
  if (transition_steps <=? 0)%Z then init_value
  else
    let count := Z.min (Z.max count 0) transition_steps in
    let frac := 1 - IZR count / IZR transition_steps in
    (init_value - end_value) * frac + end_value.

Definition cosine_decay_schedule (init_value : R) (decay_steps : Z) (alpha : R)
    (count : Z) : R :=
  let count := Z.min count decay_steps in
  let cosine_decay := 0.5 * (1 + cos (PI * IZR count / IZR decay_steps)) in
  let decayed := (1 - alpha) * cosine_decay + alpha in
  init_value * decayed.

Definition join_schedules (schedules : list (Z → R)) (boundaries : list Z)
    (step : Z) : R :=
  match schedules with
  | [] => 0
  | first :: others =>
    foldl (λ output bs, if (step <? bs.1)%Z then output else bs.2 (step - bs.1)%Z)
          (first step) (zip boundaries others)
  end.

(** [decay_steps] is the length of the whole schedule, warmup included:
    the cosine part runs over [decay_steps - warmup_steps] steps. *)
Definition warmup_cosine_decay_schedule (init_value peak_value : R)
    (warmup_steps decay_steps : Z) (end_value : R) : Z → R :=
  join_schedules
    [linear_schedule init_value peak_value warmup_steps;
     cosine_decay_schedule peak_value (decay_steps - warmup_steps)
                           (end_value / peak_value)]
    [warmup_steps].

(** *** The Python heap and standard output

    Dicts and arrays are objects on a heap, variables hold references. *)

Definition loc := nat.

Inductive pyobj :=
| ODict (d : pytree)
| OUint8 (a : list (list (list Z)))
| OFloat32 (a : list (list (list R))).

(** A printed line [step {i}, loss: {loss_value}]. *)
Record line := Line { line_step : nat; line_loss : R }.

Record world := World { heap : gmap loc pyobj; stdout : list line }.

Definition M (A : Type) : Type := world → option (A * world).

#[global] Instance M_ret : MRet M := λ A a w, Some (a, w).
#[global] Instance M_bind : MBind M := λ A B k m w,
  match m w with
  | Some (a, w') => k a w'
  | None => None
  end.

Definition lift {A : Type} (o : option A) : M A := λ w, (λ a, (a, w)) <$> o.

Definition alloc (o : pyobj) : M loc := λ w,
  let l := fresh (dom (heap w)) in
  Some (l, World (<[l := o]> (heap w)) (stdout w)).

Definition read (l : loc) : M pyobj := λ w, (λ o, (o, w)) <$> heap w !! l.

(** An assignment into an object, [d[k] = v] or [a[i] = v], would be a
    [store]. *)
Definition store (l : loc) (o : pyobj) : M unit := λ w,
  if decide (is_Some (heap w !! l))
  then Some (tt, World (<[l := o]> (heap w)) (stdout w))
  else None.

Definition print (ln : line) : M unit := λ w,
  Some (tt, World (heap w) (stdout w ++ [ln])).

Definition read_dict (l : loc) : M pytree :=
  o ← read l; lift (match o with ODict d => Some d | _ => None end).

Definition read_uint8 (l : loc) : M (list (list (list Z))) :=
  o ← read l; lift (match o with OUint8 a => Some a | _ => None end).

Definition read_float32 (l : loc) : M (list (list (list R))) :=
  o ← read l; lift (match o with OFloat32 a => Some a | _ => None end).

(** *** Cell 3: [fit] *)

(** The global names [fit] refers to. *)
Record globals := Globals { TRAINING_DATA_ref : loc; LABELS_ref : loc }.

Definition enumerate {A : Type} (l : list A) : list (nat * A) :=
  zip (seq 0 (length l)) l.

(** A uint8 batch as [jnp.dot] sees it next to float32 weights. *)
Definition promote (batch : list (list Z)) : matrix := map2d IZR batch.

Section Fit.

(** [jax.grad]: the gradient with respect to the first argument, computed
    by the framework. *)
Context (grad : (pytree → matrix → matrix → option R) →
                pytree → matrix → matrix → option pytree).

(** [jax.value_and_grad(fn)(params, batch, labels)]. *)
Definition value_and_grad (fn : pytree → matrix → matrix → option R)
    (params : pytree) (batch labels : matrix) : option (R * pytree) :=
  value ← fn params batch labels;
  grads ← grad fn params batch labels;
  Some (value, grads).

Context (optimizer : GradientTransformation).

(** <<
  @jax.jit
  def step(params, opt_state, batch, labels):
    loss_value, grads = jax.value_and_grad(loss)(params, batch, labels)
    updates, opt_state = optimizer.update(grads, opt_state, params)
    params = optax.apply_updates(params, updates)
    return params, opt_state, loss_value
>>
    [step] has no control flow on values: its jitted form computes what
    the body computes, on new arrays. *)
Definition step (params : pytree) (opt_state : OptState optimizer)
    (batch : list (list Z)) (labels : matrix)
    : option (pytree * OptState optimizer * R) :=
  '(loss_value, grads) ← value_and_grad loss params (promote batch) labels;
  '(updates, opt_state) ← update optimizer grads opt_state params;
  params ← apply_updates params updates;
  Some (params, opt_state, loss_value).

(** <<
  for i, (batch, labels) in enumerate(zip(TRAINING_DATA, LABELS)):
    params, opt_state, loss_value = step(params, opt_state, batch, labels)
    if i % 100 == 0:
      print(f'step {i}, loss: {loss_value}')
>>
    The local [params] is a reference; [step] returns a new dict. *)
Fixpoint fit_loop (items : list (nat * (list (list Z) * matrix)))
    (params : loc) (opt_state : OptState optimizer) : M loc :=
  match items with
  | [] => mret params
  | (i, (batch, labels)) :: items =>
    p ← read_dict params;
    '(p', opt_state, loss_value) ← lift (step p opt_state batch labels);
    params ← alloc (ODict p');
    (if (i mod 100 =? 0)%nat then print (Line i loss_value) else mret tt);;
    fit_loop items params opt_state
  end.

(** <<
def fit(params, optimizer):
  opt_state = optimizer.init(params)
  ...
  return params
>> *)
Definition fit (G : globals) (params : loc) : M loc :=
  p ← read_dict params;
  let opt_state := init optimizer p in
  training_data ← read_uint8 (TRAINING_DATA_ref G);
  labels ← read_float32 (LABELS_ref G);
  fit_loop (enumerate (zip training_data labels)) params opt_state.

End Fit.

(** *** Cells 3 and 4: the two runs *)

(** [optimizer = optax.adam(learning_rate=1e-2)] *)
Definition adam_optimizer : GradientTransformation := adam (Constant 1e-2).

Definition schedule : Z → R := warmup_cosine_decay_schedule 0 1 50 1000 0.

(** The schedule as the specification words it, for comparison: linear
    warmup from 0 to 1 over 50 steps, then a cosine decay to 0 that
    itself takes 1000 steps. *)
Definition claimed_schedule (count : Z) : R :=
  if (count <? 50)%Z then IZR count / 50
  else 0.5 * (1 + cos (PI * IZR (Z.min (count - 50) 1000) / 1000)).

(** [optimizer = optax.chain(optax.clip(1.0), optax.adamw(learning_rate=schedule))] *)
Definition clipped_adamw_optimizer : GradientTransformation :=
  chain [clip 1; adamw (Schedule schedule)].

(** The objects the notebook has made when a cell ends. *)
Record names := Names {
  G : globals;
  initial_params_ref : loc;
  params_ref : option loc;
}.

Section Notebook.

Context (grad : (pytree → matrix → matrix → option R) →
                pytree → matrix → matrix → option pytree).
Context (sample : Z → nat → nat → R).
Context (RAW_TRAINING_DATA : list (list (list Z))).

Definition cells_1_2 : M names :=
  training_data ← alloc (OUint8 (TRAINING_DATA RAW_TRAINING_DATA));
  labels ← lift (LABELS RAW_TRAINING_DATA);
  labels ← alloc (OFloat32 labels);
  initial_params ← alloc (ODict (initial_params sample));
  mret (Names (Globals training_data labels) initial_params None).

(** [params = fit(initial_params, optimizer)], for the optimizer of the
    cell. *)
Definition run_fit (optimizer : GradientTransformation) (n : names) : M names :=
  params ← fit grad optimizer (G n) (initial_params_ref n);
  mret (Names (G n) (initial_params_ref n) (Some params)).

Definition cell_3 : names → M names := run_fit adam_optimizer.
Definition cell_4 : names → M names := run_fit clipped_adamw_optimizer.

Definition notebook : M names :=
  n ← cells_1_2; n ← cell_3 n; cell_4 n.

End Notebook.

(** *** Notions the properties are stated with *)

(** The keys and shapes of the parameter record. *)
Definition param_shape : gmap string (list nat) :=
  {[ "hidden" := replicate 8 32%nat; "output" := replicate 32 2%nat ]}.

(** A parameter record in words: exactly the keys ['hidden'] and
    ['output'], with an 8-by-32 and a 32-by-2 array. *)
Definition two_weight_matrices (params : pytree) : Prop :=
  dom params = {[ "hidden"; "output" ]} ∧
  ∃ hidden output,
    params !! "hidden" = Some hidden ∧ has_shape 8 32 hidden ∧
    params !! "output" = Some output ∧ has_shape 32 2 output.

(** What is used of [jax.grad]: where the function returns, its gradient
    is a pytree with the keys and the shapes of the parameters. *)
Definition grad_like_params
    (grad : (pytree → matrix → matrix → option R) →
            pytree → matrix → matrix → option pytree) : Prop :=
  ∀ fn params batch labels value,
    fn params batch labels = Some value →
    ∃ grads, grad fn params batch labels = Some grads
             ∧ tree_shape grads = tree_shape params.

(** A gradient transformation that, on gradients and parameters of shape
    [sh], returns updates of shape [sh]; [state_ok] is what its state
    keeps in between. *)
Definition preserves_structure (sh : gmap string (list nat))
    (opt : GradientTransformation) : Prop :=
  ∃ state_ok : OptState opt → Prop,
    (∀ params, tree_shape params = sh → state_ok (init opt params)) ∧
    (∀ grads state params,
       tree_shape grads = sh → tree_shape params = sh → state_ok state →
       ∃ updates state',
         update opt grads state params = Some (updates, state')
         ∧ tree_shape updates = sh ∧ state_ok state').

(** A well-shaped item of the loop of [fit]: a batch of [n + 1] rows of 8
    bits with its [n + 1] rows of 2 labels. *)
Definition item_ok (item : nat * (list (list Z) * matrix)) : Prop :=
  ∃ n : nat, has_shape (S n) 8 item.2.1 ∧ has_shape (S n) 2 item.2.2.

(** The loop of [fit] without the heap: the steps taken one after the
    other on the items, in their order, with the lines they print. *)
Fixpoint steps_in_order
    (grad : (pytree → matrix → matrix → option R) →
            pytree → matrix → matrix → option pytree)
    (optimizer : GradientTransformation)
    (items : list (nat * (list (list Z) * matrix)))
    (params : pytree) (opt_state : OptState optimizer)
    : option (pytree * list line) :=
  match items with
  | [] => Some (params, [])
  | (i, (batch, labels)) :: items =>
    '(params, opt_state, loss_value) ←
      step grad optimizer params opt_state batch labels;
    '(final, lines) ← steps_in_order grad optimizer items params opt_state;
    Some (final,
          (if (i mod 100 =? 0)%nat then [Line i loss_value] else []) ++ lines)
  end.

(** The step count that the schedule of the optimizer of cell 4 reads:
    the state of [scale_by_schedule] inside [adamw]. *)
Definition schedule_count (st : OptState clipped_adamw_optimizer) : Z :=
  st.2.1.2.2.1.

(** *** Small instances, for examples *)

(** A gradient function that meets [grad_like_params]: all zeros. *)
Definition zero_grad (fn : pytree → matrix → matrix → option R)
    (params : pytree) (batch labels : matrix) : option pytree :=
  Some (zeros_like params).

(** A possible draw of cell 1: every integer is 7. *)
Definition sevens : list (list (list Z)) :=
  replicate NUM_TRAIN_STEPS (replicate BATCH_SIZE [7%Z]).

(** The label array of cell 1, one row per example. *)
Definition label_rows (RAW_TRAINING_DATA : list (list (list Z))) : list matrix :=
  (λ m : list (list Z), (λ z, one_hot 2 (z mod 2)%Z) <$> concat m)
  <$> RAW_TRAINING_DATA.

(** The heap after cells 1 and 2 for that draw and parameters all zero. *)
Definition sevens_world : world :=
  World {[ 0%nat := OUint8 (TRAINING_DATA sevens);
           1%nat := OFloat32 (label_rows sevens);
           2%nat := ODict (initial_params (λ _ _ _, 0)) ]} [].

(** *** The outputs recorded in the notebook

    [(i, loss)] for each line [step i, loss: ...] below cells 3 and 4. *)

Definition adam_run_output : list (nat * Q) := [
  (0%nat, 5.507180690765381%Q);
  (100%nat, 0.229142427444458%Q);
  (200%nat, 0.03447369486093521%Q);
  (300%nat, 0.006939497776329517%Q);
  (400%nat, 0.006980330683290958%Q);
  (500%nat, 0.015318550169467926%Q);
  (600%nat, 0.009581432677805424%Q);
  (700%nat, 0.00931396521627903%Q);
  (800%nat, 0.004092650953680277%Q);
  (900%nat, 0.0008034102502278984%Q)
].

Definition clipped_adamw_run_output : list (nat * Q) := [
  (0%nat, 5.507180690765381%Q);
  (100%nat, 1.0336355463053415e-17%Q);
  (200%nat, 3.111113797138465e-12%Q);
  (300%nat, 6.953975722579785e-17%Q);
  (400%nat, 1.3526211438856197e-18%Q);
  (500%nat, 1.2548147416968636e-11%Q);
  (600%nat, 6.068839875084109e-11%Q);
  (700%nat, 1.343288147381827e-07%Q);
  (800%nat, 1.6410630195923996e-15%Q);
  (900%nat, 1.357956165293217e-07%Q)
].


End Training.

(** ** Part II. Theorems *)

Section JittingTheorems.
Import Jitting.
Open Scope Z_scope.

(** The calls of the notebook, run in the model. *)
Example f_10 : body f [PyInt 10] = Ok (PyInt 10).
Proof. reflexivity. Qed.

Example f_minus_3 : body f [PyInt (-3)] = Ok (PyInt (-6)).
Proof. reflexivity. Qed.

Example g_10_20 : body (g 21) [PyInt 10; PyInt 20] = Ok (PyInt 30).
Proof. reflexivity. Qed.

Example g_10_20_low_fuel : body (g 20) [PyInt 10; PyInt 20] = OutOfFuel.
Proof. reflexivity. Qed.

Example f_jit_10 : f_jit [PyInt 10] = Raise ConcretizationTypeError.
Proof. reflexivity. Qed.

Example g_jit_10_20 : g_jit 21 [PyInt 10; PyInt 20] = Raise ConcretizationTypeError.
Proof. reflexivity. Qed.

Example g_inner_jitted_10_20 :
  g_inner_jitted 21 (PyInt 10) (PyInt 20) = Ok (Arr 30).
Proof. by vm_compute. Qed.

Example f_jit_correct_10 : f_jit_correct [PyInt 10] = Ok (Arr 10).
Proof. reflexivity. Qed.

Example g_jit_correct_10_20 : g_jit_correct 21 [PyInt 10; PyInt 20] = Ok (Arr 30).
Proof. by vm_compute. Qed.

Example f_jit_too_large : f_jit [PyInt 2147483648] = Raise OverflowError.
Proof. reflexivity. Qed.

Lemma in_int32_bounds z : in_int32 z = true ↔ INT32_MIN ≤ z ≤ INT32_MAX.
Proof. unfold in_int32. rewrite andb_true_iff, !Z.leb_le. tauto. Qed.

Lemma wrap32_small z : in_int32 z = true → wrap32 z = z.
Proof.
  rewrite in_int32_bounds. unfold wrap32, INT32_MIN, INT32_MAX. intros Hz.
  rewrite Z.mod_small; lia.
Qed.

(** Evaluates the range tests of the literals [0], [1], [2] of the cells. *)
Ltac int32_literals :=
  repeat match goal with
  | |- context [in_int32 0] => change (in_int32 0) with true
  | |- context [in_int32 (Zpos ?p)] =>
      let b := eval vm_compute in (in_int32 (Zpos p)) in
      change (in_int32 (Zpos p)) with b
  end.

(** The native loop of [g] on Python ints counts from [i] up to [n]. *)
Lemma while_python_counts (k : nat) : ∀ fuel i n,
  n = i + Z.of_nat k → (k < fuel)%nat →
  py_while fuel (λ i, py_binop Lt i (PyInt n))
                (λ i, py_binop Add i (PyInt 1)) (PyInt i) = Ok (PyInt n).
Proof.
  induction k as [|k IH]; intros [|fuel] i n Hn Hk; try lia.
  - replace n with i by lia. cbn. rewrite Z.ltb_irrefl. reflexivity.
  - cbn. replace (i <? n) with true by (symmetry; apply Z.ltb_lt; lia).
    cbn. apply IH; lia.
Qed.

(** Whatever the bound, the loop of [g] on Python ints ends on a Python
    int between its start and the larger of its start and [n]. *)
Lemma while_python_result fuel : ∀ i n v,
  py_while fuel (λ i, py_binop Lt i (PyInt n))
                (λ i, py_binop Add i (PyInt 1)) (PyInt i) = Ok v →
  ∃ k, v = PyInt k ∧ i ≤ k ≤ Z.max i n.
Proof.
  induction fuel as [|fuel IH]; intros i n v H; [done|].
  cbn in H. destruct (i <? n) eqn:E; cbn in H.
  - apply Z.ltb_lt in E. destruct (IH _ _ _ H) as (k & -> & Hk).
    exists k. split; [done|lia].
  - apply Z.ltb_ge in E. injection H as <-. exists i. split; [done|lia].
Qed.

Lemma g_body_python fuel x n :
  0 ≤ n → (Z.to_nat n < fuel)%nat →
  g_body fuel (PyInt x) (PyInt n) = Ok (PyInt (x + n)).
Proof.
  intros Hn Hfuel. unfold g_body.
  rewrite (while_python_counts (Z.to_nat n)) by lia. reflexivity.
Qed.

(** On a tracer the first test of the loop already fails. *)
Lemma g_body_traced_bound fuel x e :
  g_body (S fuel) x (Tracer e) = Raise ConcretizationTypeError.
Proof. reflexivity. Qed.

Lemma trace_args_1 v : trace_args [] [v] = (λ t, [t]) <$> abstractify 0 v.
Proof.
  unfold trace_args. cbn. rewrite bool_decide_eq_false_2 by apply not_elem_of_nil.
  destruct (abstractify 0 v); reflexivity.
Qed.

Lemma trace_args_2 v w :
  trace_args [] [v; w]
  = (t ← abstractify 0 v; u ← abstractify 1 w; Ok [t; u]).
Proof.
  unfold trace_args. cbn. rewrite !bool_decide_eq_false_2 by apply not_elem_of_nil.
  destruct (abstractify 0 v), (abstractify 1 w); reflexivity.
Qed.

Lemma trace_args_static_n fuel x n :
  trace_args (static_positions (g fuel) [] ["n"]) [x; PyInt n]
  = (λ t, [t; PyInt n]) <$> abstractify 0 x.
Proof.
  replace (static_positions (g fuel) [] ["n"]) with [1%nat] by (by vm_compute).
  unfold trace_args. cbn.
  rewrite (bool_decide_eq_false_2 (0%nat ∈ [1%nat]))
    by (rewrite list_elem_of_singleton; lia).
  rewrite (bool_decide_eq_true_2 (1%nat ∈ [1%nat]))
    by (by apply list_elem_of_singleton).
  destruct (abstractify 0 x); reflexivity.
Qed.

Lemma loop_body_arr i :
  in_int32 i = true → in_int32 (i + 1) = true →
  loop_body [Arr i] = Ok (Arr (i + 1)).
Proof.
  intros Hi Hi1. unfold loop_body, jit. rewrite trace_args_1. cbn.
  int32_literals. cbn. rewrite wrap32_small by done. reflexivity.
Qed.

Lemma loop_body_int i :
  in_int32 i = true → in_int32 (i + 1) = true →
  loop_body [PyInt i] = Ok (Arr (i + 1)).
Proof.
  intros Hi Hi1. unfold loop_body, jit. rewrite trace_args_1. cbn.
  rewrite Hi. cbn. int32_literals. cbn. rewrite wrap32_small by done.
  reflexivity.
Qed.

(** Once [i] is an array, the loop of [g_inner_jitted] counts in int32. *)
Lemma while_inner_counts (k : nat) : ∀ fuel i n,
  in_int32 i = true → in_int32 n = true →
  n = i + Z.of_nat k → (k < fuel)%nat →
  py_while fuel (λ i, py_binop Lt i (PyInt n)) (λ i, loop_body [i]) (Arr i)
  = Ok (Arr n).
Proof.
  induction k as [|k IH]; intros [|fuel] i n Hi Hn Hk Hfuel; try lia.
  - replace n with i by lia. cbn. rewrite Hi. cbn.
    rewrite Z.ltb_irrefl. reflexivity.
  - assert (Hi1 : in_int32 (i + 1) = true).
    { apply in_int32_bounds. apply in_int32_bounds in Hi, Hn. lia. }
    cbn -[loop_body]. rewrite Hn. cbn -[loop_body].
    replace (i <? n) with true by (symmetry; apply Z.ltb_lt; lia).
    cbn -[loop_body]. rewrite loop_body_arr by done. cbn -[loop_body].
    apply IH; try done; lia.
Qed.

Lemma g_inner_jitted_counts fuel x n :
  in_int32 x = true → in_int32 n = true → in_int32 (x + n) = true →
  0 ≤ n → (Z.to_nat n < fuel)%nat →
  int_of <$> g_inner_jitted fuel (PyInt x) (PyInt n) = Ok (Some (x + n)).
Proof.
  intros Hx Hn Hxn Hn0 Hfuel. unfold g_inner_jitted.
  destruct fuel as [|fuel]; [lia|].
  destruct (decide (n = 0)) as [->|Hne].
  - cbn. rewrite Z.add_0_r. reflexivity.
  - cbn -[loop_body]. replace (0 <? n) with true by (symmetry; apply Z.ltb_lt; lia).
    cbn -[loop_body]. rewrite (loop_body_int 0) by done. cbn -[loop_body].
    rewrite (while_inner_counts (Z.to_nat n - 1)); try done; try lia.
    unfold mbind, result_bind. cbn. rewrite Hx. cbn.
    rewrite wrap32_small by done. reflexivity.
Qed.

Lemma g_jit_correct_counts fuel x n :
  in_int32 x = true → in_int32 n = true → in_int32 (x + n) = true →
  0 ≤ n → (Z.to_nat n < fuel)%nat →
  g_jit_correct fuel [PyInt x; PyInt n] = Ok (Arr (x + n)).
Proof.
  intros Hx Hn Hxn Hn0 Hfuel. unfold g_jit_correct, jit.
  cbn zeta. rewrite trace_args_static_n. cbn.
  rewrite Hx. cbn. unfold g_body.
  rewrite (while_python_counts (Z.to_nat n)) by lia.
  cbn. rewrite Hn. cbn. rewrite wrap32_small by done. reflexivity.
Qed.

Lemma f_body_python x :
  f_body (PyInt x) = Ok (PyInt (if 0 <? x then x else 2 * x)).
Proof. unfold f_body. cbn. by destruct (0 <? x). Qed.

(** With [x] static, the jitted [f] returns what [f] returns, as an int32
    array. *)
Lemma f_jit_correct_agrees x :
  in_int32 (if 0 <? x then x else 2 * x) = true →
  f_jit_correct [PyInt x] = Ok (Arr (if 0 <? x then x else 2 * x)).
Proof.
  intros Hfx. unfold f_jit_correct, jit, trace_args. cbn -[f_body].
  rewrite (bool_decide_eq_true_2 (0%nat ∈ [0%nat]))
    by (by apply list_elem_of_singleton).
  cbn -[f_body]. rewrite f_body_python. cbn. rewrite Hfx. reflexivity.
Qed.

(** C2.  Under [jax.jit] with every argument traced, [f] (which branches
    on [x > 0]) and [g] (whose [while] is bounded by [n]) raise
    ConcretizationTypeError, for all int32 arguments and as soon as the
    loop may run at all.  With the argument marked static
    ([static_argnums=0] for [f], [static_argnames=['n']] for [g]) the
    calls return what plain Python returns, as long as it fits int32; for
    the calls of the notebook that is 10 and 30. *)
Theorem jit_value_dependent_control_flow :
  (∀ x, in_int32 x = true → f_jit [PyInt x] = Raise ConcretizationTypeError) ∧
  (∀ fuel x n, in_int32 x = true → in_int32 n = true →
     g_jit (S fuel) [PyInt x; PyInt n] = Raise ConcretizationTypeError) ∧
  (∀ x y, body f [PyInt x] = Ok (PyInt y) → in_int32 y = true →
     f_jit_correct [PyInt x] = Ok (Arr y)) ∧
  (∀ fuel x n y, body (g fuel) [PyInt x; PyInt n] = Ok (PyInt y) →
     in_int32 x = true → in_int32 n = true → in_int32 y = true →
     g_jit_correct fuel [PyInt x; PyInt n] = Ok (Arr y)) ∧
  (f_jit_correct [PyInt 10] = Ok (Arr 10) ∧ body f [PyInt 10] = Ok (PyInt 10)) ∧
  (∀ fuel, (20 < fuel)%nat →
     g_jit_correct fuel [PyInt 10; PyInt 20] = Ok (Arr 30) ∧
     body (g fuel) [PyInt 10; PyInt 20] = Ok (PyInt 30)).
Proof.
  split; [|split; [|split; [|split; [|split]]]].
  - intros x Hx. unfold f_jit, jit. rewrite trace_args_1. cbn.
    rewrite Hx. reflexivity.
  - intros fuel x n Hx Hn. unfold g_jit, jit. rewrite trace_args_2. cbn.
    rewrite Hx, Hn. reflexivity.
  - intros x y Hf Hy. cbn [body f] in Hf. rewrite f_body_python in Hf.
    injection Hf as <-. by apply f_jit_correct_agrees.
  - intros fuel x n y Hg Hx Hn Hy. unfold g_jit_correct, jit.
    cbn zeta. rewrite trace_args_static_n. cbn -[g_body].
    rewrite Hx. cbn [body g] in Hg. unfold g_body in *.
    destruct (py_while fuel _ _ (PyInt 0)) as [i| | |] eqn:Hloop; try done.
    destruct (while_python_result _ _ _ _ Hloop) as (k & -> & Hk).
    cbn in Hg. injection Hg as <-.
    cbn. rewrite ?Hloop. cbn. assert (Hk32 : in_int32 k = true).
    { apply in_int32_bounds. apply in_int32_bounds in Hn.
      unfold INT32_MIN, INT32_MAX in *. lia. }
    rewrite Hk32. cbn. rewrite wrap32_small by done. reflexivity.
  - split; reflexivity.
  - intros fuel Hfuel. split.
    + apply (g_jit_correct_counts fuel 10 20); try done; lia.
    + apply (g_body_python fuel 10 20); lia.
Qed.

Lemma jit_value_dependent_control_flow_witness :
  f_jit [PyInt 10] = Raise ConcretizationTypeError ∧
  g_jit 1 [PyInt 10; PyInt 20] = Raise ConcretizationTypeError ∧
  f_jit_correct [PyInt (-3)] = Ok (Arr (-6)) ∧
  g_jit_correct 21 [PyInt 10; PyInt 20] = Ok (Arr 30) ∧
  body (g 22) [PyInt 10; PyInt 20] = Ok (PyInt 30).
Proof.
  destruct jit_value_dependent_control_flow
    as (Hf & Hg & Hfc & Hgc & _ & Hnotebook).
  split; [apply Hf; reflexivity|].
  split; [apply Hg; reflexivity|].
  split; [apply Hfc; reflexivity|].
  split; [apply (Hgc 21%nat 10 20 30); reflexivity|].
  apply (Hnotebook 22%nat). lia.
Defined.

(** C10, as stated, fails at [x = 2147483647], [n = 1]: plain [g]
    returns [x + n = 2147483648], the two workarounds add in int32 and
    return [-2147483648]. *)
Lemma g_workarounds_wrap_at_int32_max :
  int_of <$> body (g 2) [PyInt 2147483647; PyInt 1] = Ok (Some 2147483648) ∧
  int_of <$> g_inner_jitted 2 (PyInt 2147483647) (PyInt 1)
  = Ok (Some (-2147483648)) ∧
  int_of <$> g_jit_correct 2 [PyInt 2147483647; PyInt 1]
  = Ok (Some (-2147483648)) ∧
  -2147483648 ≠ 2147483647 + 1.
Proof. repeat split; try (vm_compute; reflexivity). lia. Qed.

(** C10, amended.  For int32 [x] and [n] with [0 <= n] and [x + n] still
    an int32, and a loop bound above [n], plain [g], [g_inner_jitted],
    [g_jit_correct] and [g_jit_decorated] all return the integer [x + n]. *)
Theorem g_workarounds_agree_in_int32 fuel x n :
  in_int32 x = true → in_int32 n = true → in_int32 (x + n) = true →
  0 ≤ n → (Z.to_nat n < fuel)%nat →
  int_of <$> body (g fuel) [PyInt x; PyInt n] = Ok (Some (x + n)) ∧
  int_of <$> g_inner_jitted fuel (PyInt x) (PyInt n) = Ok (Some (x + n)) ∧
  int_of <$> g_jit_correct fuel [PyInt x; PyInt n] = Ok (Some (x + n)) ∧
  int_of <$> g_jit_decorated fuel [PyInt x; PyInt n] = Ok (Some (x + n)).
Proof.
  intros Hx Hn Hxn Hn0 Hfuel. repeat split.
  - cbn [body g]. rewrite g_body_python by done. reflexivity.
  - by apply g_inner_jitted_counts.
  - rewrite g_jit_correct_counts by done. reflexivity.
  - change (g_jit_decorated fuel) with (g_jit_correct fuel).
    rewrite g_jit_correct_counts by done. reflexivity.
Qed.

Lemma g_workarounds_agree_in_int32_witness :
  int_of <$> body (g 21) [PyInt 10; PyInt 20] = Ok (Some 30) ∧
  int_of <$> g_inner_jitted 21 (PyInt 10) (PyInt 20) = Ok (Some 30) ∧
  int_of <$> g_jit_correct 21 [PyInt 10; PyInt 20] = Ok (Some 30) ∧
  int_of <$> g_jit_decorated 21 [PyInt 10; PyInt 20] = Ok (Some 30).
Proof.
  apply (g_workarounds_agree_in_int32 21 10 20); try reflexivity; lia.
Defined.

End JittingTheorems.

Section DataTheorems.
Import Training.
Local Open Scope Z_scope.

Example unpackbits1_7 : unpackbits1 7 = [0; 0; 0; 0; 0; 1; 1; 1].
Proof. reflexivity. Qed.

Example unpackbits1_254 : unpackbits1 254 = [1; 1; 1; 1; 1; 1; 1; 0].
Proof. reflexivity. Qed.

Example TRAINING_DATA_small :
  TRAINING_DATA [[[7]; [254]]] = [[[0; 0; 0; 0; 0; 1; 1; 1];
                                   [1; 1; 1; 1; 1; 1; 1; 0]]].
Proof. reflexivity. Qed.

Example chunks_by_2 : chunks 3 2 [1; 2; 3; 4; 5; 6] = [[1; 2]; [3; 4]; [5; 6]].
Proof. reflexivity. Qed.

(** One batch is not an array of 1000 batches: the reshape raises. *)
Example LABELS_wrong_size : LABELS [[[7]; [254]]] = None.
Proof. reflexivity. Qed.

Lemma length_concat_uniform {A : Type} (n : nat) (ls : list (list A)) :
  Forall (λ l, length l = n) ls → length (concat ls) = (length ls * n)%nat.
Proof.
  induction 1 as [|l ls Hl _ IH]; [reflexivity|].
  cbn. rewrite length_app, IH, Hl. reflexivity.
Qed.

(** Cutting a concatenation of pieces of one size gives the pieces back. *)
Lemma chunks_concat {A : Type} (n : nat) (ls : list (list A)) :
  Forall (λ l, length l = n) ls → chunks (length ls) n (concat ls) = ls.
Proof.
  induction 1 as [|l ls Hl _ IH]; [reflexivity|].
  cbn. rewrite take_app_length', drop_app_length' by done.
  by rewrite IH.
Qed.

Lemma concat_concat {A : Type} (t : list (list (list A))) :
  concat (concat t) = concat ((λ m, concat m) <$> t).
Proof.
  induction t as [|m t IH]; [reflexivity|].
  cbn. by rewrite concat_app, IH.
Qed.

Lemma concat_singletons {A : Type} (m : list (list A)) (e : nat) (x : A) :
  Forall (λ v, length v = 1%nat) m → m !! e = Some [x] → concat m !! e = Some x.
Proof.
  intros Hm. revert e. induction Hm as [|v m Hv _ IH]; intros e He; [done|].
  destruct v as [|y [|??]]; try done.
  destruct e as [|e]; cbn in *; [congruence|]. by apply IH.
Qed.

Lemma length_concat_singletons {A : Type} (m : list (list A)) :
  Forall (λ v, length v = 1%nat) m → length (concat m) = length m.
Proof. intros Hm. rewrite (length_concat_uniform 1) by done. lia. Qed.

Lemma length_one_hot n k : length (one_hot n k) = n.
Proof. unfold one_hot. by rewrite length_fmap, length_seq. Qed.

(** The byte-wise facts are checked on all 256 bytes. *)
Lemma all_bytes (P : Z → Prop) `{!∀ z, Decision (P z)} :
  Is_true (bool_decide (Forall P (seqZ 0 256))) → ∀ z, (0 ≤ z < 256)%Z → P z.
Proof.
  intros HP%bool_decide_unpack z Hz.
  eapply Forall_forall in HP; [exact HP|]. apply elem_of_seqZ. lia.
Qed.

Lemma packbits_unpackbits1 z : (0 ≤ z < 256)%Z → packbits (unpackbits1 z) = z.
Proof.
  revert z. apply (all_bytes (λ z, packbits (unpackbits1 z) = z)).
  by vm_compute.
Qed.

Lemma length_unpackbits1 z : length (unpackbits1 z) = 8%nat.
Proof. reflexivity. Qed.

Lemma last_unpackbits1 z : last (unpackbits1 z) = Some (z mod 2)%Z.
Proof.
  change (last (unpackbits1 z)) with (Some (Z.b2z (Z.testbit z 0))).
  by rewrite Z.bit0_mod.
Qed.

Lemma unpackbits1_bits z : Forall (λ b, b = 0%Z ∨ b = 1%Z) (unpackbits1 z).
Proof.
  unfold unpackbits1. apply Forall_fmap, Forall_forall. intros k _. cbn.
  destruct (Z.testbit z k); auto.
Qed.

Lemma randint_lookup high d0 d1 raw s e :
  randint high d0 d1 1 raw → (s < d0)%nat → (e < d1)%nat →
  ∃ m r, raw !! s = Some m ∧ length m = d1 ∧ m !! e = Some [r]
         ∧ Forall (λ v : list Z, length v = 1%nat) m ∧ 0 ≤ r < high.
Proof.
  intros [Hlen Hall] Hs He.
  destruct (lookup_lt_is_Some_2 raw s) as [m Hm]; [lia|].
  destruct (Forall_lookup_1 _ _ _ _ Hall Hm) as [Hlm Hm'].
  destruct (lookup_lt_is_Some_2 m e) as [v Hv]; [lia|].
  destruct (Forall_lookup_1 _ _ _ _ Hm' Hv) as [Hlv Hr].
  destruct v as [|r [|??]]; try done.
  exists m, r. repeat split; try done.
  - eapply Forall_impl; [exact Hm'|]. by intros ? [? _].
  - apply Forall_inv in Hr. cbn beta in Hr. lia.
  - apply Forall_inv in Hr. cbn beta in Hr. lia.
Qed.

(** What [.reshape(NUM_TRAIN_STEPS, BATCH_SIZE, 2)] makes of the one-hot
    array: one row per example, in the order of the examples. *)
Lemma LABELS_rows raw :
  randint 255 NUM_TRAIN_STEPS BATCH_SIZE 1 raw →
  LABELS raw = Some (label_rows raw).
Proof.
  intros [Hlen Hall]. unfold LABELS, reshape3, label_rows.
  set (rows := (λ m : list (list Z),
                  (λ z, one_hot 2 (z mod 2)) <$> concat m) <$> raw).
  assert (Hflat : concat (concat (map3 (fmap (λ z, one_hot 2 (z mod 2))) raw))
                  = concat rows).
  { rewrite concat_concat. f_equal. unfold map3, rows.
    rewrite <- list_fmap_compose. apply list_fmap_ext. intros _ m _. cbn.
    induction m as [|v m IH]; [reflexivity|]. cbn.
    by rewrite fmap_app, IH. }
  assert (Hrows : Forall (λ l : list (list R), length l = BATCH_SIZE) rows).
  { unfold rows. apply Forall_fmap. eapply Forall_impl; [exact Hall|].
    intros m [Hm Hvs]. cbn. rewrite length_fmap.
    rewrite length_concat_singletons; [done|].
    eapply Forall_impl; [exact Hvs|]. by intros ? [? _]. }
  assert (Hvecs : Forall (λ l : list R, length l = 2%nat) (concat rows)).
  { unfold rows. apply Forall_concat, Forall_fmap, Forall_forall.
    intros m _. apply Forall_fmap, Forall_forall. intros z _.
    apply length_one_hot. }
  assert (Hn : length rows = NUM_TRAIN_STEPS).
  { unfold rows. by rewrite length_fmap. }
  assert (Hnb : length (concat rows) = (NUM_TRAIN_STEPS * BATCH_SIZE)%nat).
  { by rewrite (length_concat_uniform BATCH_SIZE), Hn. }
  rewrite Hflat. rewrite decide_True.
  - f_equal. rewrite <- Hnb, chunks_concat by done.
    rewrite <- Hn. by apply chunks_concat.
  - by rewrite (length_concat_uniform 2), Hnb.
Qed.

(** C1.  Whatever array [np.random.randint(255, size=(1000, 5, 1))]
    returns, example [e] of batch [s] has as features the 8 bits, most
    significant first, of its integer [r] in [[0, 255)], and as label the
    one-hot vector over 2 classes of [r mod 2]; the class of the label is
    the last bit of the features. *)
Theorem training_example_bits_and_parity raw s e :
  randint 255 NUM_TRAIN_STEPS BATCH_SIZE 1 raw →
  (s < NUM_TRAIN_STEPS)%nat → (e < BATCH_SIZE)%nat →
  ∃ r features labels label bit,
    raw !! s ≫= (.!! e) = Some [r] ∧ 0 ≤ r < 255 ∧
    TRAINING_DATA raw !! s ≫= (.!! e) = Some features ∧
    length features = 8%nat ∧
    Forall (λ b, b = 0 ∨ b = 1) features ∧
    packbits features = r ∧
    LABELS raw = Some labels ∧
    labels !! s ≫= (.!! e) = Some label ∧
    label = one_hot 2 (r mod 2) ∧
    last features = Some bit ∧
    label = [IZR (1 - bit); IZR bit].
Proof.
  intros Hraw Hs He.
  destruct (randint_lookup _ _ _ _ _ _ Hraw Hs He)
    as (m & r & Hm & Hlm & Hv & Hones & Hr).
  exists r, (unpackbits1 r), (label_rows raw), (one_hot 2 (r mod 2)), (r mod 2).
  repeat split; try lia.
  - rewrite Hm. exact Hv.
  - unfold TRAINING_DATA, map3. rewrite !list_lookup_fmap, Hm.
    cbn -[unpackbits astype_uint8]. rewrite !list_lookup_fmap, Hv.
    cbn -[unpackbits1 astype_uint8]. unfold astype_uint8.
    rewrite Z.mod_small by lia. by rewrite app_nil_r.
  - apply unpackbits1_bits.
  - apply packbits_unpackbits1. lia.
  - by apply LABELS_rows.
  - unfold label_rows. rewrite list_lookup_fmap, Hm. cbn -[one_hot].
    rewrite list_lookup_fmap. by rewrite (concat_singletons m e r).
  - apply last_unpackbits1.
  - unfold one_hot. cbn.
    destruct (Z.mod_pos_bound r 2) as [? ?]; [lia|].
    assert (Hbit : r mod 2 = 0 ∨ r mod 2 = 1) by lia.
    destruct Hbit as [-> | ->]; reflexivity.
Qed.

Lemma training_example_bits_and_parity_witness :
  ∃ r features labels label bit,
    replicate 1000 (replicate 5 [7]) !! 3%nat ≫= (.!! 2%nat) = Some [r]
    ∧ 0 ≤ r < 255 ∧
    TRAINING_DATA (replicate 1000 (replicate 5 [7])) !! 3%nat ≫= (.!! 2%nat)
    = Some features ∧
    length features = 8%nat ∧
    Forall (λ b, b = 0 ∨ b = 1) features ∧
    packbits features = r ∧
    LABELS (replicate 1000 (replicate 5 [7])) = Some labels ∧
    labels !! 3%nat ≫= (.!! 2%nat) = Some label ∧
    label = one_hot 2 (r mod 2) ∧
    last features = Some bit ∧
    label = [IZR (1 - bit); IZR bit].
Proof.
  apply (training_example_bits_and_parity (replicate 1000 (replicate 5 [7])) 3 2).
  - split; [reflexivity|].
    apply Forall_replicate. split; [reflexivity|].
    apply Forall_replicate. split; [reflexivity|].
    apply Forall_singleton. lia.
  - unfold NUM_TRAIN_STEPS. lia.
  - unfold BATCH_SIZE. lia.
Defined.

End DataTheorems.

Section NetworkTheorems.
Import Training.
Local Open Scope R_scope.

Lemma has_shape_length {A : Type} (r c : nat) (m : list (list A)) :
  has_shape r c m → length m = r.
Proof.
  unfold has_shape, row_lengths. intros H.
  by rewrite <- (length_fmap length m), H, length_replicate.
Qed.

Lemma has_shape_row {A : Type} (r c : nat) (m : list (list A)) i row :
  has_shape r c m → m !! i = Some row → length row = c.
Proof.
  unfold has_shape, row_lengths. intros H Hi.
  assert (Hl : (length <$> m) !! i = Some (length row))
    by (by rewrite list_lookup_fmap, Hi).
  rewrite H in Hl. by apply lookup_replicate_1 in Hl as [-> _].
Qed.

Lemma has_shape_intro {A : Type} (r c : nat) (m : list (list A)) :
  length m = r → Forall (λ row, length row = c) m → has_shape r c m.
Proof.
  intros <- Hall. unfold has_shape, row_lengths.
  induction Hall as [|row m Hrow _ IH]; [reflexivity|].
  cbn. by rewrite Hrow, IH.
Qed.

Lemma has_shape_rows {A : Type} (r c : nat) (m : list (list A)) :
  has_shape r c m → Forall (λ row, length row = c) m.
Proof.
  intros H. apply Forall_lookup. intros i row Hi. by eapply has_shape_row.
Qed.

Lemma nth_lookup_default {A : Type} (l : list A) (i : nat) (d x : A) :
  l !! i = Some x → nth i l d = x.
Proof. intros H. by rewrite (nth_lookup_Some l i d x). Qed.

Lemma zip_with_index (op : R → R → R) (u v : list R) (k : nat) :
  length u = k → length v = k →
  zip_with op u v = (λ l, op (nth l u 0) (nth l v 0)) <$> seq 0 k.
Proof.
  intros Hu Hv. apply list_eq. intros l.
  rewrite lookup_zip_with, list_lookup_fmap.
  destruct (decide (l < k)%nat) as [Hl|Hl].
  - destruct (lookup_lt_is_Some_2 u l) as [a Ha]; [lia|].
    destruct (lookup_lt_is_Some_2 v l) as [b Hb]; [lia|].
    rewrite Ha, Hb, lookup_seq_lt by done. cbn.
    by rewrite (nth_lookup_default u l 0 a), (nth_lookup_default v l 0 b).
  - rewrite (lookup_ge_None_2 u), lookup_seq_ge by lia. reflexivity.
Qed.

(** [vdot] in index notation. *)
Lemma vdot_big_sum (u v : list R) (k : nat) :
  length u = k → length v = k →
  vdot u v = big_sum k (λ l, nth l u 0 * nth l v 0).
Proof.
  intros Hu Hv. unfold vdot, big_sum. by rewrite (zip_with_index _ u v k).
Qed.

Lemma length_col j (m : list (list R)) : length (col j m) = length m.
Proof. unfold col. by rewrite length_fmap. Qed.

Lemma nth_col j l (m : list (list R)) : nth l (col j m) 0 = entry m l j.
Proof.
  unfold col, entry. destruct (m !! l) as [row|] eqn:Hl.
  - rewrite (nth_lookup_default _ l 0 (nth j row 0)).
    + by rewrite (nth_lookup_default m l [] row).
    + by rewrite list_lookup_fmap, Hl.
  - apply lookup_ge_None in Hl.
    rewrite (nth_overflow (_ <$> m)) by (rewrite length_fmap; lia).
    rewrite (nth_overflow m) by lia. by destruct j.
Qed.

(** [jnp.dot] on matching shapes: the result, its shape, its entries. *)
Lemma dot_spec (a b : list (list R)) (n k m : nat) :
  has_shape n (S k) a → has_shape (S k) m b →
  ∃ c, dot a b = Some c ∧ has_shape n m c ∧
    ∀ i j, (i < n)%nat → (j < m)%nat →
      entry c i j = big_sum (S k) (λ l, entry a i l * entry b l j).
Proof.
  intros Ha Hb.
  pose proof (has_shape_length _ _ _ Ha) as Hla.
  pose proof (has_shape_length _ _ _ Hb) as Hlb.
  destruct b as [|b0 b']; [done|].
  assert (Hb0 : length b0 = m) by (by eapply (has_shape_row _ _ _ 0%nat)).
  unfold dot. rewrite decide_True; last first.
  { rewrite Hla, Hlb, Hb0. done. }
  eexists. split; [reflexivity|]. rewrite Hb0. split.
  - apply has_shape_intro; [by rewrite length_fmap|].
    apply Forall_fmap, Forall_forall. intros row _. cbn.
    by rewrite length_fmap, length_seq.
  - intros i j Hi Hj. unfold entry at 1.
    destruct (lookup_lt_is_Some_2 a i) as [row Hrow]; [lia|].
    rewrite (nth_lookup_default _ i []
               ((λ j, vdot row (col j (b0 :: b'))) <$> seq 0 m)); last first.
    { by rewrite list_lookup_fmap, Hrow. }
    rewrite (nth_lookup_default _ j 0 (vdot row (col j (b0 :: b')))); last first.
    { by rewrite list_lookup_fmap, lookup_seq_lt. }
    rewrite (vdot_big_sum _ _ (S k)).
    + unfold big_sum. f_equal. apply list_fmap_ext. intros _ l _.
      rewrite nth_col. unfold entry at 2.
      by rewrite (nth_lookup_default a i [] row).
    + by eapply has_shape_row.
    + by rewrite length_col.
Qed.

Lemma has_shape_map2d (op : R → R) (r c : nat) (m : list (list R)) :
  has_shape r c m → has_shape r c (map2d op m).
Proof.
  unfold has_shape, row_lengths, map2d. intros <-.
  rewrite <- list_fmap_compose. apply list_fmap_ext. intros _ row _. cbn.
  by rewrite length_fmap.
Qed.

Lemma entry_map2d (op : R → R) (r c : nat) (m : list (list R)) i j :
  has_shape r c m → (i < r)%nat → (j < c)%nat →
  entry (map2d op m) i j = op (entry m i j).
Proof.
  intros Hm Hi Hj. unfold entry, map2d.
  pose proof (has_shape_length _ _ _ Hm) as Hlen.
  destruct (lookup_lt_is_Some_2 m i) as [row Hrow]; [lia|].
  pose proof (has_shape_row _ _ _ _ _ Hm Hrow) as Hlrow.
  destruct (lookup_lt_is_Some_2 row j) as [x Hx]; [lia|].
  rewrite (nth_lookup_default _ i [] (op <$> row))
    by (by rewrite list_lookup_fmap, Hrow).
  rewrite (nth_lookup_default _ j 0 (op x))
    by (by rewrite list_lookup_fmap, Hx).
  by rewrite (nth_lookup_default m i [] row),
             (nth_lookup_default row j 0 x).
Qed.

(** [net] on matching shapes. *)
Lemma net_spec x (params : gmap string (list (list R))) hidden output
    (n d h k : nat) :
  params !! "hidden" = Some hidden → params !! "output" = Some output →
  has_shape n (S d) x → has_shape (S d) (S h) hidden →
  has_shape (S h) k output →
  ∃ y, net x params = Some y ∧ has_shape n k y ∧
    ∀ i j, (i < n)%nat → (j < k)%nat →
      entry y i j
      = big_sum (S h) (λ c,
          relu (big_sum (S d) (λ l, entry x i l * entry hidden l c))
          * entry output c j).
Proof.
  intros Hh Ho Hx Hhs Hos.
  destruct (dot_spec x hidden n d (S h) Hx Hhs) as (xh & Hxh & Hxhs & Hxhe).
  destruct (dot_spec (map2d relu xh) output n h k
              (has_shape_map2d relu _ _ _ Hxhs) Hos) as (y & Hy & Hys & Hye).
  exists y. split; [|split; [done|]].
  - unfold net. rewrite Hh. cbn. rewrite Hxh. cbn. rewrite Ho. cbn.
    rewrite Hy. done.
  - intros i j Hi Hj. rewrite Hye by done. unfold big_sum. f_equal.
    apply list_fmap_ext. intros idx c Hc%lookup_seq. cbn beta.
    rewrite (entry_map2d relu n (S h)) by (done || lia).
    rewrite Hxhe by (done || lia). reflexivity.
Qed.

Lemma sum_fmap_ext {A : Type} (f g : A → R) (l : list A) :
  (∀ a, a ∈ l → f a = g a) → sum (f <$> l) = sum (g <$> l).
Proof.
  intros H. f_equal. apply list_fmap_ext. intros i a Ha. apply H.
  by eapply list_elem_of_lookup_2.
Qed.

Lemma big_sum_ext (n : nat) (f g : nat → R) :
  (∀ l, (l < n)%nat → f l = g l) → big_sum n f = big_sum n g.
Proof.
  intros H. apply sum_fmap_ext. intros l Hl%elem_of_seq. apply H. lia.
Qed.

Lemma sum_fmap_scale {A : Type} (c : R) (f : A → R) (l : list A) :
  sum ((λ a, c * f a) <$> l) = c * sum (f <$> l).
Proof.
  induction l as [|a l IH]; cbn; [lra|].
  unfold sum in IH. rewrite IH. lra.
Qed.

Lemma big_sum_scale (n : nat) (c : R) (f : nat → R) :
  big_sum n (λ l, c * f l) = c * big_sum n f.
Proof. apply sum_fmap_scale. Qed.

Lemma big_sum_zero (n : nat) : big_sum n (λ _, 0) = 0.
Proof.
  unfold big_sum. induction (seq 0 n) as [|a l IH]; cbn; [done|].
  unfold sum in IH. rewrite IH. lra.
Qed.

(** Two arrays of one shape with the same entries are the same array. *)
Lemma matrix_ext (a b : list (list R)) (n k : nat) :
  has_shape n k a → has_shape n k b →
  (∀ i j, (i < n)%nat → (j < k)%nat → entry a i j = entry b i j) → a = b.
Proof.
  intros Ha Hb Hab.
  pose proof (has_shape_length _ _ _ Ha) as Hla.
  pose proof (has_shape_length _ _ _ Hb) as Hlb.
  apply list_eq. intros i.
  destruct (decide (i < n)%nat) as [Hi|Hi]; last first.
  { by rewrite !lookup_ge_None_2 by lia. }
  destruct (lookup_lt_is_Some_2 a i) as [ra Hra]; [lia|].
  destruct (lookup_lt_is_Some_2 b i) as [rb Hrb]; [lia|].
  rewrite Hra, Hrb. f_equal.
  pose proof (has_shape_row _ _ _ _ _ Ha Hra) as Hlra.
  pose proof (has_shape_row _ _ _ _ _ Hb Hrb) as Hlrb.
  apply list_eq. intros j.
  destruct (decide (j < k)%nat) as [Hj|Hj]; last first.
  { by rewrite !lookup_ge_None_2 by lia. }
  destruct (lookup_lt_is_Some_2 ra j) as [x Hx]; [lia|].
  destruct (lookup_lt_is_Some_2 rb j) as [y Hy]; [lia|].
  rewrite Hx, Hy. f_equal.
  specialize (Hab i j Hi Hj). unfold entry in Hab.
  rewrite (nth_lookup_default a i [] ra), (nth_lookup_default b i [] rb) in Hab
    by done.
  by rewrite (nth_lookup_default ra j 0 x), (nth_lookup_default rb j 0 y) in Hab.
Qed.

Lemma relu_0 : relu 0 = 0.
Proof. unfold relu, Rmax. destruct (Rle_dec 0 0); lra. Qed.

(** No bias: a row of zeros is mapped to a row of zeros. *)
Lemma net_zero_row x (params : gmap string (list (list R))) hidden output
    (n d h k : nat) y i j :
  params !! "hidden" = Some hidden → params !! "output" = Some output →
  has_shape n (S d) x → has_shape (S d) (S h) hidden →
  has_shape (S h) k output →
  net x params = Some y → (i < n)%nat → (j < k)%nat →
  (∀ l, (l < S d)%nat → entry x i l = 0) → entry y i j = 0.
Proof.
  intros Hh Ho Hx Hhs Hos Hy Hi Hj Hzero.
  destruct (net_spec x params hidden output n d h k) as (y' & Hy' & _ & He);
    try done.
  assert (y' = y) as -> by congruence.
  rewrite He by done.
  rewrite (big_sum_ext _ _ (λ _, 0)); [apply big_sum_zero|].
  intros c Hc.
  rewrite (big_sum_ext _ _ (λ _, 0)).
  - rewrite big_sum_zero, relu_0. lra.
  - intros l Hl. rewrite Hzero by done. lra.
Qed.

(** No nonlinearity after the output layer: scaling the output weights by
    any real [c], negative ones too, scales the result by [c]. *)
Lemma net_scale_output x (params : gmap string (list (list R))) hidden output
    (n d h k : nat) y (c : R) :
  params !! "hidden" = Some hidden → params !! "output" = Some output →
  has_shape n (S d) x → has_shape (S d) (S h) hidden →
  has_shape (S h) k output →
  net x params = Some y →
  net x (<["output" := map2d (Rmult c) output]> params)
  = Some (map2d (Rmult c) y).
Proof.
  intros Hh Ho Hx Hhs Hos Hy.
  destruct (net_spec x params hidden output n d h k) as (y0 & Hy0 & Hys & He);
    try done.
  assert (y0 = y) as -> by congruence.
  destruct (net_spec x (<["output" := map2d (Rmult c) output]> params)
              hidden (map2d (Rmult c) output) n d h k)
    as (y' & Hy' & Hys' & He'); try done.
  { by rewrite lookup_insert_ne. }
  { by rewrite lookup_insert_eq. }
  { by apply has_shape_map2d. }
  rewrite Hy'. f_equal.
  apply (matrix_ext _ _ n k); [done|by apply has_shape_map2d|].
  intros i j Hi Hj.
  rewrite He', (entry_map2d (Rmult c) n k), He by done.
  rewrite <- big_sum_scale. apply big_sum_ext. intros l Hl.
  rewrite (entry_map2d (Rmult c) (S h) k) by done. lra.
Qed.

(** C5.  [net(x, params)] is [relu(x . params['hidden']) . params['output']],
    for every [x] and [params] (it raises where that expression raises);
    on matching shapes its entry [(i, j)] is the sum over the hidden
    units [c] of [relu(sum_l x[i,l] * hidden[l,c]) * output[c,j]]: linear
    layers without bias (a zero row of [x] gives a zero row), ReLU after
    the hidden layer only (scaling the output weights by any real scales
    the result). *)
Theorem net_is_relu_between_two_dots x (params : gmap string (list (list R))) :
  net x params
  = (hidden ← params !! "hidden";
     output ← params !! "output";
     xh ← dot x hidden;
     dot (map2d relu xh) output) ∧
  ∀ hidden output (n d h k : nat),
    params !! "hidden" = Some hidden → params !! "output" = Some output →
    has_shape n (S d) x → has_shape (S d) (S h) hidden →
    has_shape (S h) k output →
    ∃ y, net x params = Some y ∧ has_shape n k y ∧
      (∀ i j, (i < n)%nat → (j < k)%nat →
        entry y i j
        = big_sum (S h) (λ c,
            relu (big_sum (S d) (λ l, entry x i l * entry hidden l c))
            * entry output c j)) ∧
      (∀ i j, (i < n)%nat → (j < k)%nat →
        (∀ l, (l < S d)%nat → entry x i l = 0) → entry y i j = 0) ∧
      (∀ c, net x (<["output" := map2d (Rmult c) output]> params)
            = Some (map2d (Rmult c) y)).
Proof.
  split.
  - unfold net.
    destruct (params !! "hidden") as [hidden|]; [|done]. cbn.
    destruct (params !! "output") as [output|]; cbn.
    + destruct (dot x hidden) as [xh|]; [|done]. cbn.
      by destruct (dot (map2d relu xh) output).
    + by destruct (dot x hidden).
  - intros hidden output n d h k Hh Ho Hx Hhs Hos.
    destruct (net_spec x params hidden output n d h k) as (y & Hy & Hys & He);
      try done.
    exists y. split; [done|]. split; [done|]. split; [done|]. split.
    + intros i j Hi Hj Hzero.
      by apply (net_zero_row x params hidden output n d h k y i j).
    + intros c. by apply (net_scale_output x params hidden output n d h k y c).
Qed.

Lemma net_is_relu_between_two_dots_witness :
  ∃ y, net [[1; -1]] {[ "hidden" := [[1]; [2]]; "output" := [[3]] ]} = Some y
       ∧ has_shape 1 1 y ∧
    (∀ i j, (i < 1)%nat → (j < 1)%nat →
      entry y i j
      = big_sum 1 (λ c,
          relu (big_sum 2 (λ l, entry [[1; -1]] i l * entry [[1]; [2]] l c))
          * entry [[3]] c j)) ∧
    (∀ i j, (i < 1)%nat → (j < 1)%nat →
      (∀ l, (l < 2)%nat → entry [[1; -1]] i l = 0) → entry y i j = 0) ∧
    (∀ c, net [[1; -1]]
              (<["output" := map2d (Rmult c) [[3]]]>
                 {[ "hidden" := [[1]; [2]]; "output" := [[3]] ]})
          = Some (map2d (Rmult c) y)).
Proof.
  apply (proj2 (net_is_relu_between_two_dots [[1; -1]]
                  {[ "hidden" := [[1]; [2]]; "output" := [[3]] ]})
               [[1]; [2]] [[3]] 1%nat 1%nat 0%nat 1%nat);
    reflexivity.
Defined.

Lemma rows_big_sum (op : R → R → R) (a b : list (list R)) (n k : nat) :
  has_shape n k a → has_shape n k b →
  sum <$> zip_with (zip_with op) a b
  = (λ i, big_sum k (λ j, op (entry a i j) (entry b i j))) <$> seq 0 n.
Proof.
  intros Ha Hb.
  pose proof (has_shape_length _ _ _ Ha) as Hla.
  pose proof (has_shape_length _ _ _ Hb) as Hlb.
  apply list_eq. intros i.
  rewrite !list_lookup_fmap, lookup_zip_with.
  destruct (decide (i < n)%nat) as [Hi|Hi].
  - destruct (lookup_lt_is_Some_2 a i) as [ra Hra]; [lia|].
    destruct (lookup_lt_is_Some_2 b i) as [rb Hrb]; [lia|].
    rewrite Hra, Hrb, lookup_seq_lt by done. cbn. f_equal.
    rewrite (zip_with_index op ra rb k (has_shape_row _ _ _ _ _ Ha Hra)
               (has_shape_row _ _ _ _ _ Hb Hrb)).
    unfold big_sum, entry.
    by rewrite (nth_lookup_default a i [] ra), (nth_lookup_default b i [] rb).
  - rewrite (lookup_ge_None_2 a), lookup_seq_ge by lia. reflexivity.
Qed.

Lemma loss_spec
    (params : gmap string (list (list R))) hidden output batch labels (n : nat) :
  params !! "hidden" = Some hidden → params !! "output" = Some output →
  has_shape 8 32 hidden → has_shape 32 2 output →
  has_shape (S n) 8 batch → has_shape (S n) 2 labels →
  ∃ y_hat, net batch params = Some y_hat ∧
    loss params batch labels
    = Some (big_sum (S n) (λ i,
              big_sum 2 (λ j,
                sigmoid_binary_cross_entropy (entry y_hat i j) (entry labels i j)))
            / INR (S n)).
Proof.
  intros Hh Ho Hhs Hos Hb Hl.
  destruct (net_spec batch params hidden output (S n) 7 31 2)
    as (y & Hy & Hys & _); try done.
  exists y. split; [done|].
  unfold loss. rewrite Hy. cbn. unfold map2.
  rewrite decide_True by (by rewrite Hys, Hl). cbn. f_equal.
  unfold mean. rewrite (rows_big_sum _ y labels (S n) 2) by done.
  by rewrite length_fmap, length_seq.
Qed.

(** C4.  On a batch of [n + 1] examples and parameters of the notebook's
    shapes, [loss] is the mean over the examples [i] of the sum over the
    two outputs [j] of the sigmoid binary cross-entropy between
    [net(batch, params)[i, j]] and [labels[i, j]]. *)
Theorem loss_is_mean_of_summed_cross_entropy
    (params : gmap string (list (list R))) hidden output batch labels (n : nat) :
  params !! "hidden" = Some hidden → params !! "output" = Some output →
  has_shape 8 32 hidden → has_shape 32 2 output →
  has_shape (S n) 8 batch → has_shape (S n) 2 labels →
  ∃ y_hat, net batch params = Some y_hat ∧
    loss params batch labels
    = Some (big_sum (S n) (λ i,
              big_sum 2 (λ j,
                sigmoid_binary_cross_entropy (entry y_hat i j) (entry labels i j)))
            / INR (S n)).
Proof. apply loss_spec. Qed.

Lemma loss_is_mean_of_summed_cross_entropy_witness :
  ∃ y_hat,
    net [replicate 8 1]
        {[ "hidden" := replicate 8 (replicate 32 1);
           "output" := replicate 32 (replicate 2 1) ]} = Some y_hat ∧
    loss {[ "hidden" := replicate 8 (replicate 32 1);
            "output" := replicate 32 (replicate 2 1) ]}
         [replicate 8 1] [[0; 1]]
    = Some (big_sum 1 (λ i,
              big_sum 2 (λ j,
                sigmoid_binary_cross_entropy (entry y_hat i j)
                                             (entry [[0; 1]] i j)))
            / INR 1).
Proof.
  apply (loss_is_mean_of_summed_cross_entropy
           {[ "hidden" := replicate 8 (replicate 32 1);
              "output" := replicate 32 (replicate 2 1) ]}
           (replicate 8 (replicate 32 1)) (replicate 32 (replicate 2 1))
           [replicate 8 1] [[0; 1]] 0);
    reflexivity.
Defined.

End NetworkTheorems.

Section OptimizerTheorems.
Import Training.
Local Open Scope R_scope.

Lemma schedule_unfold t :
  schedule t
  = if (t <? 50)%Z then linear_schedule 0 1 50 t
    else cosine_decay_schedule 1 950 (0 / 1) (t - 50).
Proof. reflexivity. Qed.

Lemma schedule_warmup t : (0 ≤ t ≤ 50)%Z → schedule t = IZR t / 50.
Proof.
  intros Ht. rewrite schedule_unfold.
  destruct (t <? 50)%Z eqn:E.
  - unfold linear_schedule. cbn [Z.leb Z.compare].
    rewrite Z.max_l, Z.min_l by lia. lra.
  - apply Z.ltb_ge in E. assert (t = 50%Z) as -> by lia.
    unfold cosine_decay_schedule. cbn [Z.sub Z.add Z.opp Z.pos_sub].
    rewrite Z.min_l by lia. rewrite Rmult_0_r.
    unfold Rdiv at 2. rewrite Rmult_0_l, cos_0. lra.
Qed.

Lemma schedule_decay t :
  (50 ≤ t ≤ 1000)%Z → schedule t = (1 + cos (PI * IZR (t - 50) / 950)) / 2.
Proof.
  intros Ht. destruct (decide (t = 50%Z)) as [->|Hne].
  - rewrite schedule_warmup by lia. cbn [Z.sub Z.add Z.opp Z.pos_sub].
    rewrite Rmult_0_r. unfold Rdiv at 3. rewrite Rmult_0_l, cos_0. lra.
  - rewrite schedule_unfold.
    replace (t <? 50)%Z with false by (symmetry; apply Z.ltb_ge; lia).
    unfold cosine_decay_schedule. rewrite Z.min_l by lia. lra.
Qed.

Lemma schedule_end t : (1000 ≤ t)%Z → schedule t = 0.
Proof.
  intros Ht. rewrite schedule_unfold.
  replace (t <? 50)%Z with false by (symmetry; apply Z.ltb_ge; lia).
  unfold cosine_decay_schedule. rewrite Z.min_r by lia.
  replace (PI * 950 / 950) with PI by lra. rewrite cos_PI. lra.
Qed.

Lemma cos_above_minus_1 x : 0 < x < PI → cos x ≠ -1.
Proof.
  intros Hx Hcos. pose proof (sin_gt_0 x (proj1 Hx) (proj2 Hx)) as Hsin.
  pose proof (sin2_cos2 x) as H. unfold Rsqr in H. rewrite Hcos in H. nra.
Qed.

(** C6, as stated, fails: with a cosine decay of 1000 steps after the
    warmup the rate would still be positive at step 1000, where the
    schedule of the notebook has reached 0. *)
Lemma schedule_differs_from_claimed_at_1000 :
  schedule 1000 = 0 ∧ claimed_schedule 1000 ≠ 0.
Proof.
  split; [by apply schedule_end|].
  unfold claimed_schedule. change (1000 <? 50)%Z with false.
  change (1000 - 50)%Z with 950%Z. rewrite Z.min_l by lia.
  pose proof PI_RGT_0 as Hpi.
  assert (Hcos : cos (PI * 950 / 1000) ≠ -1) by (apply cos_above_minus_1; lra).
  lra.
Qed.

Lemma jnp_clip_range x : -1 <= jnp_clip x (-1) 1 <= 1.
Proof.
  unfold jnp_clip, Rmin, Rmax.
  repeat (destruct (Rle_dec _ _)); lra.
Qed.

Lemma jnp_clip_inside x : -1 <= x <= 1 → jnp_clip x (-1) 1 = x.
Proof.
  unfold jnp_clip, Rmin, Rmax.
  repeat (destruct (Rle_dec _ _)); lra.
Qed.

(** One update of the optimizer of cell 3: the Adam direction times the
    constant [- 1e-2]. *)
Lemma adam_optimizer_update g (st : OptState adam_optimizer) p :
  update adam_optimizer g st p
  = ('(u, s) ← update (scale_by_adam 0.9 0.999 1e-8 0) g st.1 p;
     Some (tree_map (λ x, - (1e-2) * x) u, (s, st.2))).
Proof.
  destruct st as [sa [[] []]]. cbn -[scale_by_adam Z.pow_pos].
  destruct (update (scale_by_adam 0.9 0.999 1e-8 0) g sa p) as [[u s]|];
    reflexivity.
Qed.

(** One update of the optimizer of cell 4: the gradients are clipped
    first, AdamW sees the clipped gradients. *)
Lemma clipped_adamw_optimizer_update g (st : OptState clipped_adamw_optimizer) p :
  update clipped_adamw_optimizer g st p
  = ('(u, s) ← update (adamw (Schedule schedule))
                      (tree_map (λ x, jnp_clip x (- 1) 1) g) st.2.1 p;
     Some (u, (st.1, (s, st.2.2)))).
Proof.
  destruct st as [[] [sw []]]. cbn -[adamw schedule Z.pow_pos].
  destruct (update (adamw (Schedule schedule)) _ sw p) as [[u s]|];
    reflexivity.
Qed.

(** One update of AdamW: Adam direction, plus weight decay, times minus
    the scheduled rate at the current count; the count then advances. *)
Lemma adamw_update g (st : OptState (adamw (Schedule schedule))) p :
  update (adamw (Schedule schedule)) g st p
  = ('(u, s) ← update (scale_by_adam 0.9 0.999 1e-8 0) g st.1 p;
     u ← tree_map2 (λ g p, g + 1e-4 * p) u p;
     Some (tree_map (λ x, - schedule st.2.2.1 * x) u,
           (s, (st.2.1, (safe_int32_increment st.2.2.1, st.2.2.2))))).
Proof.
  destruct st as [sa [[] [count []]]]. cbn -[scale_by_adam schedule Z.pow_pos].
  destruct (update (scale_by_adam 0.9 0.999 1e-8 0) g sa p) as [[u s]|];
    [|reflexivity].
  cbn -[schedule Z.pow_pos]. destruct (tree_map2 _ u p); reflexivity.
Qed.

(** C6, amended.  The notebook fits twice from [initial_params]: with
    Adam, whose update is the Adam direction times the constant
    [- 1e-2]; then with a chain that clips every gradient entry into
    [[-1, 1]] and gives the result to AdamW, whose rate at count [t]
    (starting at 0, one more at each update) is [schedule t]: [t / 50]
    for the first 50 steps, then a cosine decay over the remaining 950
    steps, which is 0 from step 1000 on. *)
Theorem optimizers_of_the_two_runs :
  (∀ grad sample raw,
     notebook grad sample raw
     = (n ← cells_1_2 sample raw;
        n ← run_fit grad (adam (Constant 1e-2)) n;
        run_fit grad (chain [clip 1; adamw (Schedule schedule)]) n)) ∧
  (∀ g (st : OptState adam_optimizer) p,
     update adam_optimizer g st p
     = ('(u, s) ← update (scale_by_adam 0.9 0.999 1e-8 0) g st.1 p;
        Some (tree_map (λ x, - (1e-2) * x) u, (s, st.2)))) ∧
  (∀ g (st : OptState clipped_adamw_optimizer) p,
     update clipped_adamw_optimizer g st p
     = ('(u, s) ← update (adamw (Schedule schedule))
                         (tree_map (λ x, jnp_clip x (- 1) 1) g) st.2.1 p;
        Some (u, (st.1, (s, st.2.2))))) ∧
  (∀ x, - 1 <= jnp_clip x (- 1) 1 <= 1 ∧
        (- 1 <= x <= 1 → jnp_clip x (- 1) 1 = x)) ∧
  (∀ p, (init (adamw (Schedule schedule)) p).2.2.1 = 0%Z) ∧
  (∀ g (st : OptState (adamw (Schedule schedule))) p,
     update (adamw (Schedule schedule)) g st p
     = ('(u, s) ← update (scale_by_adam 0.9 0.999 1e-8 0) g st.1 p;
        u ← tree_map2 (λ g p, g + 1e-4 * p) u p;
        Some (tree_map (λ x, - schedule st.2.2.1 * x) u,
              (s, (st.2.1, (safe_int32_increment st.2.2.1, st.2.2.2)))))) ∧
  (∀ t, (0 ≤ t ≤ 50)%Z → schedule t = IZR t / 50) ∧
  (∀ t, (50 ≤ t ≤ 1000)%Z →
        schedule t = (1 + cos (PI * IZR (t - 50) / 950)) / 2) ∧
  (∀ t, (1000 ≤ t)%Z → schedule t = 0).
Proof.
  split; [reflexivity|].
  split; [apply adam_optimizer_update|].
  split; [apply clipped_adamw_optimizer_update|].
  split; [intros x; split; [apply jnp_clip_range|apply jnp_clip_inside]|].
  split; [reflexivity|].
  split; [apply adamw_update|].
  split; [apply schedule_warmup|].
  split; [apply schedule_decay|apply schedule_end].
Qed.

Lemma optimizers_of_the_two_runs_witness :
  jnp_clip (1 / 2) (- 1) 1 = 1 / 2 ∧
  schedule 25 = IZR 25 / 50 ∧
  schedule 525 = (1 + cos (PI * IZR (525 - 50) / 950)) / 2 ∧
  schedule 1000 = 0.
Proof.
  destruct optimizers_of_the_two_runs
    as (_ & _ & _ & Hclip & _ & _ & Hwarm & Hdecay & Hend).
  split; [apply Hclip; lra|].
  split; [apply Hwarm; lia|].
  split; [apply Hdecay; lia|apply Hend; lia].
Defined.

End OptimizerTheorems.

Section StructureTheorems.
Import Training.
Local Open Scope R_scope.

Lemma row_lengths_zip_with (op : R → R → R) (a : list (list R)) :
  ∀ b, row_lengths a = row_lengths b →
       row_lengths (zip_with (zip_with op) a b) = row_lengths a.
Proof.
  unfold row_lengths.
  induction a as [|ra a IH]; intros [|rb b] Hab; try done.
  cbn in *. injection Hab as Hr Hrest.
  rewrite IH by done. f_equal. rewrite length_zip_with. lia.
Qed.

Lemma row_lengths_map2d {A B : Type} (op : A → B) (m : list (list A)) :
  row_lengths (map2d op m) = row_lengths m.
Proof.
  unfold row_lengths, map2d. rewrite <- list_fmap_compose.
  apply list_fmap_ext. intros _ row _. cbn. by rewrite length_fmap.
Qed.

Lemma tree_shape_tree_map (op : R → R) (t : gmap string (list (list R))) :
  tree_shape (tree_map op t) = tree_shape t.
Proof.
  unfold tree_shape, tree_map. rewrite <- map_fmap_compose.
  apply map_fmap_ext. intros k m _. cbn. apply row_lengths_map2d.
Qed.

Lemma tree_map2_ok (op : R → R → R) (a b : gmap string (list (list R))) :
  tree_shape a = tree_shape b →
  ∃ c, tree_map2 op a b = Some c ∧ tree_shape c = tree_shape a.
Proof.
  intros Hab. unfold tree_map2. rewrite decide_True by done.
  eexists. split; [reflexivity|].
  apply map_eq. intros k. unfold tree_shape in *.
  rewrite !lookup_fmap, map_lookup_zip_with.
  assert (Hk : row_lengths <$> a !! k = row_lengths <$> b !! k)
    by (by rewrite <- !lookup_fmap, Hab).
  destruct (a !! k) as [ma|], (b !! k) as [mb|]; cbn in *; try done.
  f_equal. apply row_lengths_zip_with. congruence.
Qed.

Lemma tree_shape_zeros_like (t : gmap string (list (list R))) :
  tree_shape (zeros_like t) = tree_shape t.
Proof. apply tree_shape_tree_map. Qed.

Lemma apply_updates_ok (params updates : gmap string (list (list R))) :
  tree_shape updates = tree_shape params →
  ∃ params', apply_updates params updates = Some params'
             ∧ tree_shape params' = tree_shape params.
Proof. intros H. by apply tree_map2_ok. Qed.

Lemma identity_preserves sh : preserves_structure sh identity.
Proof.
  exists (λ _, True). split; [done|].
  intros g st p Hg Hp _. by exists g, st.
Qed.

Lemma chain2_preserves sh a b :
  preserves_structure sh a → preserves_structure sh b →
  preserves_structure sh (chain2 a b).
Proof.
  intros (oka & Hinita & Hupda) (okb & Hinitb & Hupdb).
  exists (λ st, oka st.1 ∧ okb st.2). split.
  - intros p Hp. split; [by apply Hinita|by apply Hinitb].
  - intros g [sa sb] p Hg Hp [Hsa Hsb].
    destruct (Hupda g sa p Hg Hp Hsa) as (u & sa' & Hu & Hus & Hsa').
    destruct (Hupdb u sb p Hus Hp Hsb) as (u' & sb' & Hu' & Hus' & Hsb').
    exists u', (sa', sb'). cbn. rewrite Hu. cbn. rewrite Hu'. done.
Qed.

Lemma clip_preserves sh max_delta : preserves_structure sh (clip max_delta).
Proof.
  exists (λ _, True). split; [done|].
  intros g st p Hg Hp _. eexists _, _. split; [reflexivity|].
  by rewrite tree_shape_tree_map.
Qed.

Lemma scale_preserves sh step_size : preserves_structure sh (scale step_size).
Proof.
  exists (λ _, True). split; [done|].
  intros g st p Hg Hp _. eexists _, _. split; [reflexivity|].
  by rewrite tree_shape_tree_map.
Qed.

Lemma scale_by_schedule_preserves sh fn :
  preserves_structure sh (scale_by_schedule fn).
Proof.
  exists (λ _, True). split; [done|].
  intros g st p Hg Hp _. eexists _, _. split; [reflexivity|].
  by rewrite tree_shape_tree_map.
Qed.

Lemma scale_by_learning_rate_preserves sh lr :
  preserves_structure sh (scale_by_learning_rate lr).
Proof.
  destruct lr; [apply scale_preserves|apply scale_by_schedule_preserves].
Qed.

Lemma add_decayed_weights_preserves sh wd :
  preserves_structure sh (add_decayed_weights wd).
Proof.
  exists (λ _, True). split; [done|].
  intros g st p Hg Hp _.
  destruct (tree_map2_ok (λ g p, g + wd * p) g p) as (u & Hu & Hus);
    [congruence|].
  exists u, st. cbn. rewrite Hu. cbn. split; [done|]. split; [congruence|done].
Qed.

Lemma scale_by_adam_preserves sh b1 b2 eps eps_root :
  preserves_structure sh (scale_by_adam b1 b2 eps eps_root).
Proof.
  exists (λ st, tree_shape st.1.2 = sh ∧ tree_shape st.2 = sh). split.
  - intros p Hp. cbn. by rewrite !tree_shape_zeros_like.
  - intros g [[count mu] nu] p Hg Hp [Hmu Hnu].
    change (tree_shape mu = sh) in Hmu. change (tree_shape nu = sh) in Hnu.
    destruct (tree_map2_ok (λ g t, (1 - b1) * g + b1 * t) g mu)
      as (mu' & Hmu' & Hmus); [congruence|].
    destruct (tree_map2_ok (λ g t, (1 - b2) * g ^ 2 + b2 * t) g nu)
      as (nu' & Hnu' & Hnus); [congruence|].
    set (c := safe_int32_increment count).
    destruct (tree_map2_ok (λ m v, m / (sqrt (v + eps_root) + eps))
                (tree_map (λ t, t / (1 - b1 ^ Z.to_nat c)) mu')
                (tree_map (λ t, t / (1 - b2 ^ Z.to_nat c)) nu'))
      as (u & Hu & Hus); [rewrite !tree_shape_tree_map; congruence|].
    exists u, (c, mu', nu').
    cbn -[pow tree_map2 tree_map safe_int32_increment]. rewrite Hmu'.
    cbn -[pow tree_map2 tree_map safe_int32_increment]. rewrite Hnu'.
    cbn -[pow tree_map2 tree_map safe_int32_increment]. fold c. rewrite Hu.
    rewrite tree_shape_tree_map in Hus.
    split; [done|]. split; [congruence|]. split.
    + change (tree_shape mu' = sh). congruence.
    + change (tree_shape nu' = sh). congruence.
Qed.

Lemma adam_preserves sh lr : preserves_structure sh (adam lr).
Proof.
  unfold adam, chain. cbn [foldr].
  repeat apply chain2_preserves;
    auto using scale_by_adam_preserves, scale_by_learning_rate_preserves,
               identity_preserves.
Qed.

Lemma adamw_preserves sh lr : preserves_structure sh (adamw lr).
Proof.
  unfold adamw, chain. cbn [foldr].
  repeat apply chain2_preserves;
    auto using scale_by_adam_preserves, scale_by_learning_rate_preserves,
               add_decayed_weights_preserves, identity_preserves.
Qed.

Lemma adam_optimizer_preserves sh : preserves_structure sh adam_optimizer.
Proof. apply adam_preserves. Qed.

Lemma clipped_adamw_optimizer_preserves sh :
  preserves_structure sh clipped_adamw_optimizer.
Proof.
  unfold clipped_adamw_optimizer, chain. cbn [foldr].
  apply chain2_preserves; [apply clip_preserves|].
  apply chain2_preserves; [apply adamw_preserves|apply identity_preserves].
Qed.

End StructureTheorems.

Section FitTheorems.
Import Training.
Local Open Scope R_scope.

(** What [tree_shape params = param_shape] says. *)
Lemma param_shape_inv (params : gmap string (list (list R))) :
  tree_shape params = param_shape → two_weight_matrices params.
Proof.
  intros H. split.
  - assert (Hd : dom (tree_shape params) = dom param_shape) by (by rewrite H).
    unfold tree_shape in Hd. rewrite dom_fmap_L in Hd. rewrite Hd.
    unfold param_shape. rewrite dom_insert_L, dom_singleton_L. done.
  - assert (Hh : tree_shape params !! "hidden" = Some (replicate 8 32%nat))
      by (by rewrite H).
    assert (Ho : tree_shape params !! "output" = Some (replicate 32 2%nat))
      by (by rewrite H).
    unfold tree_shape in Hh, Ho. rewrite lookup_fmap in Hh, Ho.
    destruct (params !! "hidden") as [hidden|]; [|done].
    destruct (params !! "output") as [output|]; [|done].
    exists hidden, output.
    change (Some (row_lengths hidden) = Some (replicate 8 32%nat)) in Hh.
    change (Some (row_lengths output) = Some (replicate 32 2%nat)) in Ho.
    repeat split; unfold has_shape; congruence.
Qed.

Lemma param_shape_intro (params : gmap string (list (list R))) :
  two_weight_matrices params → tree_shape params = param_shape.
Proof.
  intros (Hdom & hidden & output & Hh & Hhs & Ho & Hos).
  apply map_eq. intros k. unfold tree_shape, param_shape.
  rewrite lookup_fmap.
  destruct (decide (k = "hidden")) as [->|Hk1].
  { rewrite Hh. cbn. rewrite lookup_insert_eq. by f_equal. }
  destruct (decide (k = "output")) as [->|Hk2].
  { rewrite Ho. cbn. rewrite lookup_insert_ne, lookup_singleton_eq by done.
    by f_equal. }
  rewrite lookup_insert_ne, lookup_singleton_ne by done.
  assert (Hnone : params !! k = None).
  { apply not_elem_of_dom. rewrite Hdom.
    rewrite elem_of_union, !elem_of_singleton. tauto. }
  by rewrite Hnone.
Qed.

Lemma tree_shape_initial_params sample :
  tree_shape (initial_params sample) = param_shape.
Proof.
  unfold tree_shape, initial_params, param_shape.
  rewrite fmap_insert, map_fmap_singleton. reflexivity.
Qed.

Lemma has_shape_promote (r c : nat) (batch : list (list Z)) :
  has_shape r c batch → has_shape r c (promote batch).
Proof. unfold has_shape, promote. by rewrite row_lengths_map2d. Qed.

Lemma loss_defined (params : gmap string (list (list R))) batch labels (n : nat) :
  tree_shape params = param_shape →
  has_shape (S n) 8 batch → has_shape (S n) 2 labels →
  ∃ value, loss params batch labels = Some value.
Proof.
  intros (_ & hidden & output & Hh & Hhs & Ho & Hos)%param_shape_inv Hb Hl.
  destruct (loss_spec params hidden output batch labels n) as (y & _ & Hloss);
    try done.
  eauto.
Qed.

Lemma step_loss_value grad opt params st batch labels params' st' value :
  step grad opt params st batch labels = Some (params', st', value) →
  loss params (promote batch) labels = Some value.
Proof.
  unfold step, value_and_grad. intros H.
  destruct (loss params (promote batch) labels) as [v|]; [|done]. cbn in H.
  destruct (grad loss params (promote batch) labels) as [g|]; [|done].
  cbn in H.
  destruct (update opt g st params) as [[u s]|]; [|done]. cbn in H.
  destruct (apply_updates params u); [|done]. cbn in H. congruence.
Qed.

(** One step on well-shaped arguments returns, and keeps the shapes. *)
Lemma step_ok grad opt (state_ok : OptState opt → Prop) params st batch labels :
  grad_like_params grad →
  (∀ grads state params,
     tree_shape grads = param_shape → tree_shape params = param_shape →
     state_ok state →
     ∃ updates state',
       update opt grads state params = Some (updates, state')
       ∧ tree_shape updates = param_shape ∧ state_ok state') →
  tree_shape params = param_shape → state_ok st →
  item_ok (0%nat, (batch, labels)) →
  ∃ params' st' value,
    step grad opt params st batch labels = Some (params', st', value)
    ∧ tree_shape params' = param_shape ∧ state_ok st'.
Proof.
  intros Hgrad Hupd Hp Hst (n & Hb & Hl). cbn in Hb, Hl.
  destruct (loss_defined params (promote batch) labels n) as [v Hv];
    [done|by apply has_shape_promote|done|].
  destruct (Hgrad loss params (promote batch) labels v Hv) as (g & Hg & Hgs).
  destruct (Hupd g st params) as (u & st' & Hu & Hus & Hst');
    [congruence|done|done|].
  destruct (apply_updates_ok params u) as (p' & Hp' & Hps); [congruence|].
  exists p', st', v. unfold step, value_and_grad.
  rewrite Hv. cbn. rewrite Hg. cbn. rewrite Hu. cbn. rewrite Hp'. cbn.
  split; [done|]. split; [congruence|done].
Qed.

(** The heap operations. *)
Lemma bind_run {A B : Type} (m : M A) (k : A → M B) (w : world) :
  (m ≫= k) w = match m w with Some (a, w') => k a w' | None => None end.
Proof. reflexivity. Qed.

Lemma read_dict_run (l : loc) (d : gmap string (list (list R))) (w : world) :
  heap w !! l = Some (ODict d) → read_dict l w = Some (d, w).
Proof.
  intros H. unfold read_dict. rewrite bind_run. unfold read. rewrite H.
  reflexivity.
Qed.

Lemma read_uint8_run (l : loc) a (w : world) :
  heap w !! l = Some (OUint8 a) → read_uint8 l w = Some (a, w).
Proof.
  intros H. unfold read_uint8. rewrite bind_run. unfold read. rewrite H.
  reflexivity.
Qed.

Lemma read_float32_run (l : loc) a (w : world) :
  heap w !! l = Some (OFloat32 a) → read_float32 l w = Some (a, w).
Proof.
  intros H. unfold read_float32. rewrite bind_run. unfold read. rewrite H.
  reflexivity.
Qed.

Lemma alloc_run (o : pyobj) (w : world) :
  ∃ l, alloc o w = Some (l, World (<[l := o]> (heap w)) (stdout w))
       ∧ heap w !! l = None.
Proof.
  eexists. split; [reflexivity|].
  apply not_elem_of_dom, is_fresh.
Qed.

(** The loop of [fit] on well-shaped items: it returns, it has taken the
    steps in order, and all it did to the heap is to add one new, well
    shaped parameter record per step. *)
Lemma fit_loop_ok grad opt (state_ok : OptState opt → Prop) :
  grad_like_params grad →
  (∀ grads state params,
     tree_shape grads = param_shape → tree_shape params = param_shape →
     state_ok state →
     ∃ updates state',
       update opt grads state params = Some (updates, state')
       ∧ tree_shape updates = param_shape ∧ state_ok state') →
  ∀ items, Forall item_ok items →
  ∀ pl st w p,
    heap w !! pl = Some (ODict p) → tree_shape p = param_shape → state_ok st →
    ∃ pl' w' final lines,
      fit_loop grad opt items pl st w = Some (pl', w') ∧
      steps_in_order grad opt items p st = Some (final, lines) ∧
      heap w' !! pl' = Some (ODict final) ∧
      tree_shape final = param_shape ∧
      stdout w' = stdout w ++ lines ∧
      heap w ⊆ heap w' ∧
      size (heap w') = (size (heap w) + length items)%nat ∧
      (∀ l o, heap w' !! l = Some o →
              heap w !! l = Some o
              ∨ ∃ d, o = ODict d ∧ tree_shape d = param_shape).
Proof.
  intros Hgrad Hupd items Hitems.
  induction Hitems as [|[i [batch labels]] items Hitem _ IH];
    intros pl st w p Hpl Hp Hst.
  - exists pl, w, p, []. cbn. rewrite app_nil_r.
    repeat split; try done. intros l o Hl. by left.
  - destruct (step_ok grad opt state_ok p st batch labels)
      as (p' & st' & v & Hstep & Hp' & Hst'); try done.
    destruct (alloc_run (ODict p') w) as (l & Halloc & Hfresh).
    set (w1 := World (<[l := ODict p']> (heap w)) (stdout w)) in *.
    set (w2 := if (i mod 100 =? 0)%nat
               then World (heap w1) (stdout w1 ++ [Line i v]) else w1).
    assert (Hheap2 : heap w2 = <[l := ODict p']> (heap w)).
    { unfold w2. by destruct (i mod 100 =? 0)%nat. }
    assert (Hout2 : stdout w2
                    = stdout w ++ (if (i mod 100 =? 0)%nat
                                   then [Line i v] else [])).
    { unfold w2. destruct (i mod 100 =? 0)%nat; [done|].
      by rewrite app_nil_r. }
    destruct (IH l st' w2 p') as (pl' & w' & final & lines & Hloop & Hsteps
                                  & Hfinal & Hfs & Hout & Hsub & Hsize & Hnew);
      [by rewrite Hheap2, lookup_insert_eq|done|done|].
    exists pl', w', final,
      ((if (i mod 100 =? 0)%nat then [Line i v] else []) ++ lines).
    split.
    { cbn [fit_loop]. rewrite bind_run, (read_dict_run pl p w Hpl).
      rewrite bind_run. unfold lift at 1. rewrite Hstep.
      cbn [fmap option_fmap option_map]. rewrite bind_run, Halloc.
      rewrite bind_run. fold w1.
      replace ((if (i mod 100 =? 0)%nat then print (Line i v) else mret ()) w1)
        with (Some ((), w2)).
      - exact Hloop.
      - unfold w2. by destruct (i mod 100 =? 0)%nat. }
    split.
    { cbn [steps_in_order]. rewrite Hstep. cbn. rewrite Hsteps. done. }
    split; [done|]. split; [done|].
    split; [by rewrite Hout, Hout2, app_assoc|].
    split.
    { etrans; [|exact Hsub]. rewrite Hheap2. by apply insert_subseteq. }
    split.
    { rewrite Hsize, Hheap2, map_size_insert_None by done. cbn. lia. }
    intros l' o Hl'. destruct (Hnew l' o Hl') as [Hold|Hdict]; [|by right].
    rewrite Hheap2 in Hold. destruct (decide (l = l')) as [<-|Hne].
    + rewrite lookup_insert_eq in Hold. right. exists p'. split; congruence.
    + rewrite lookup_insert_ne in Hold by done. by left.
Qed.

(** The lines are those of the steps whose index is a multiple of 100. *)
Lemma steps_in_order_lines grad opt items :
  ∀ p st final lines,
    steps_in_order grad opt items p st = Some (final, lines) →
    line_step <$> lines = filter (λ i, i mod 100 = 0)%nat items.*1.
Proof.
  induction items as [|[i [batch labels]] items IH]; intros p st final lines H.
  - cbn in H. by injection H as <- <-.
  - cbn [steps_in_order] in H.
    destruct (step grad opt p st batch labels) as [[[p' st'] v]|]; [|done].
    cbn -[Nat.modulo] in H.
    destruct (steps_in_order grad opt items p' st') as [[f ls]|] eqn:E;
      [|done].
    cbn -[Nat.modulo] in H. injection H as <- <-.
    rewrite fmap_app, (IH _ _ _ _ E).
    cbn [fmap list_fmap fst]. rewrite filter_cons.
    change (99 - (Nat.divmod i 99 0 99).2)%nat with (i mod 100)%nat.
    destruct (Nat.eqb_spec (i mod 100) 0) as [Hi|Hi].
    + by rewrite decide_True.
    + by rewrite decide_False.
Qed.

Lemma steps_in_order_first_line grad opt batch labels items p st final lines :
  steps_in_order grad opt ((0%nat, (batch, labels)) :: items) p st
  = Some (final, lines) →
  ∃ value, loss p (promote batch) labels = Some value
           ∧ head lines = Some (Line 0 value).
Proof.
  cbn [steps_in_order]. intros H.
  destruct (step grad opt p st batch labels) as [[[p' st'] v]|] eqn:Hstep;
    [|done].
  cbn in H. destruct (steps_in_order grad opt items p' st') as [[f ls]|];
    [|done].
  cbn in H. injection H as <- <-. exists v. split; [|done].
  by eapply step_loss_value.
Qed.

(** The shapes of the data of cell 1. *)
Lemma TRAINING_DATA_shape raw :
  randint 255 NUM_TRAIN_STEPS BATCH_SIZE 1 raw →
  length (TRAINING_DATA raw) = NUM_TRAIN_STEPS ∧
  Forall (has_shape BATCH_SIZE 8) (TRAINING_DATA raw).
Proof.
  intros [Hlen Hall]. unfold TRAINING_DATA, map3. split.
  - by rewrite !length_fmap.
  - apply Forall_fmap, Forall_fmap. eapply Forall_impl; [exact Hall|].
    intros m [Hm Hvs]. cbn -[unpackbits astype_uint8].
    apply has_shape_intro; [by rewrite !length_fmap|].
    apply Forall_fmap, Forall_fmap. eapply Forall_impl; [exact Hvs|].
    intros v [Hv _]. cbn -[unpackbits1 astype_uint8].
    destruct v as [|z [|??]]; try done.
Qed.

Lemma LABELS_shape raw :
  randint 255 NUM_TRAIN_STEPS BATCH_SIZE 1 raw →
  ∃ labels, LABELS raw = Some labels ∧ length labels = NUM_TRAIN_STEPS
            ∧ Forall (has_shape BATCH_SIZE 2) labels.
Proof.
  intros Hraw. eexists. split; [by apply LABELS_rows|].
  destruct Hraw as [Hlen Hall]. unfold label_rows.
  split; [by rewrite length_fmap|].
  apply Forall_fmap. eapply Forall_impl; [exact Hall|].
  intros m [Hm Hvs]. cbn -[one_hot].
  apply has_shape_intro.
  - rewrite length_fmap, length_concat_singletons; [done|].
    eapply Forall_impl; [exact Hvs|]. by intros ? [? _].
  - apply Forall_fmap, Forall_forall. intros z _. apply length_one_hot.
Qed.

Lemma enumerate_zip_items (td : list (list (list Z))) (lb : list (list (list R))) :
  length td = NUM_TRAIN_STEPS → length lb = NUM_TRAIN_STEPS →
  Forall (has_shape BATCH_SIZE 8) td → Forall (has_shape BATCH_SIZE 2) lb →
  Forall item_ok (enumerate (zip td lb)) ∧
  (enumerate (zip td lb)).*1 = seq 0 NUM_TRAIN_STEPS ∧
  length (enumerate (zip td lb)) = NUM_TRAIN_STEPS.
Proof.
  intros Htd Hlb Htds Hlbs.
  assert (Hzip : length (zip td lb) = NUM_TRAIN_STEPS)
    by (rewrite length_zip_with; lia).
  unfold enumerate. rewrite Hzip. split; [|split].
  - apply Forall_lookup. intros k [i [batch labels]] Hk.
    apply lookup_zip_with_Some in Hk as (i' & bl & Heq & _ & Hbl).
    cbn beta in Heq. injection Heq as -> <-.
    apply lookup_zip_with_Some in Hbl as (b & l & Heq & Hb & Hl).
    cbn beta in Heq. injection Heq as -> ->.
    exists 4%nat. split.
    + exact (Forall_lookup_1 _ _ _ _ Htds Hb).
    + exact (Forall_lookup_1 _ _ _ _ Hlbs Hl).
  - apply fst_zip. rewrite length_seq. lia.
  - rewrite length_zip_with, length_seq. lia.
Qed.

(** [fit] on the data of cell 1, from a well-shaped parameter record. *)
Lemma fit_ok grad opt raw G pl w p0 lb :
  grad_like_params grad → preserves_structure param_shape opt →
  randint 255 NUM_TRAIN_STEPS BATCH_SIZE 1 raw →
  heap w !! TRAINING_DATA_ref G = Some (OUint8 (TRAINING_DATA raw)) →
  LABELS raw = Some lb → heap w !! LABELS_ref G = Some (OFloat32 lb) →
  heap w !! pl = Some (ODict p0) → tree_shape p0 = param_shape →
  ∃ pl' w' final lines,
    fit grad opt G pl w = Some (pl', w') ∧
    steps_in_order grad opt (enumerate (zip (TRAINING_DATA raw) lb)) p0
                   (init opt p0) = Some (final, lines) ∧
    heap w' !! pl' = Some (ODict final) ∧
    tree_shape final = param_shape ∧
    stdout w' = stdout w ++ lines ∧
    heap w ⊆ heap w' ∧
    size (heap w') = (size (heap w) + NUM_TRAIN_STEPS)%nat ∧
    (∀ l o, heap w' !! l = Some o →
            heap w !! l = Some o
            ∨ ∃ d, o = ODict d ∧ tree_shape d = param_shape).
Proof.
  intros Hgrad (state_ok & Hinit & Hupd) Hraw Htd Hlabels Hlb Hpl Hp0.
  destruct (TRAINING_DATA_shape raw Hraw) as [Hltd Hstd].
  destruct (LABELS_shape raw Hraw) as (lb' & Hlb' & Hllb & Hslb).
  assert (lb' = lb) as -> by congruence.
  destruct (enumerate_zip_items _ _ Hltd Hllb Hstd Hslb)
    as (Hitems & _ & Hlen).
  destruct (fit_loop_ok grad opt state_ok Hgrad Hupd _ Hitems
              pl (init opt p0) w p0 Hpl Hp0 (Hinit p0 Hp0))
    as (pl' & w' & final & lines & Hloop & Hsteps & Hfinal & Hfs & Hout
        & Hsub & Hsize & Hnew).
  exists pl', w', final, lines.
  split; [|by rewrite <- Hlen].
  unfold fit. rewrite bind_run, (read_dict_run pl p0 w Hpl).
  rewrite bind_run, (read_uint8_run _ _ w Htd).
  rewrite bind_run, (read_float32_run _ _ w Hlb). exact Hloop.
Qed.

Lemma multiples_of_100_below_1000 :
  filter (λ i, i mod 100 = 0)%nat (seq 0 NUM_TRAIN_STEPS)
  = [0; 100; 200; 300; 400; 500; 600; 700; 800; 900]%nat.
Proof. by vm_compute. Qed.

(** C3.  From a well-shaped parameter record, on the data of cell 1,
    [fit] returns: it has taken the steps on the 1000 [(batch, labels)]
    pairs in their order (one new parameter record per step), it has
    printed one line for each of the steps 0, 100, ..., 900, ten lines in
    all, and it returns the parameters of the last step. *)
Theorem fit_steps_and_lines grad opt raw G pl w p0 lb :
  grad_like_params grad → preserves_structure param_shape opt →
  randint 255 NUM_TRAIN_STEPS BATCH_SIZE 1 raw →
  heap w !! TRAINING_DATA_ref G = Some (OUint8 (TRAINING_DATA raw)) →
  LABELS raw = Some lb → heap w !! LABELS_ref G = Some (OFloat32 lb) →
  heap w !! pl = Some (ODict p0) → tree_shape p0 = param_shape →
  ∃ pl' w' final lines,
    fit grad opt G pl w = Some (pl', w') ∧
    length (enumerate (zip (TRAINING_DATA raw) lb)) = 1000%nat ∧
    steps_in_order grad opt (enumerate (zip (TRAINING_DATA raw) lb)) p0
                   (init opt p0) = Some (final, lines) ∧
    size (heap w') = (size (heap w) + 1000)%nat ∧
    stdout w' = stdout w ++ lines ∧
    line_step <$> lines
    = [0; 100; 200; 300; 400; 500; 600; 700; 800; 900]%nat ∧
    length lines = 10%nat ∧
    heap w' !! pl' = Some (ODict final).
Proof.
  intros Hgrad Hopt Hraw Htd Hlabels Hlb Hpl Hp0.
  destruct (fit_ok grad opt raw G pl w p0 lb)
    as (pl' & w' & final & lines & Hfit & Hsteps & Hfinal & _ & Hout & _
        & Hsize & _); try done.
  destruct (TRAINING_DATA_shape raw Hraw) as [Hltd Hstd].
  destruct (LABELS_shape raw Hraw) as (lb' & Hlb' & Hllb & Hslb).
  assert (lb' = lb) as -> by congruence.
  destruct (enumerate_zip_items _ _ Hltd Hllb Hstd Hslb)
    as (_ & Hidx & Hlen).
  assert (Hlines : line_step <$> lines
                   = [0; 100; 200; 300; 400; 500; 600; 700; 800; 900]%nat).
  { rewrite (steps_in_order_lines _ _ _ _ _ _ _ Hsteps), Hidx.
    apply multiples_of_100_below_1000. }
  exists pl', w', final, lines. repeat split; try done.
  by rewrite <- (length_fmap line_step), Hlines.
Qed.

Lemma zero_grad_like_params : grad_like_params zero_grad.
Proof.
  intros fn p b l v _. eexists. split; [reflexivity|].
  apply tree_shape_zeros_like.
Qed.

Lemma randint_sevens : randint 255 NUM_TRAIN_STEPS BATCH_SIZE 1 sevens.
Proof.
  split; [reflexivity|].
  apply Forall_replicate. split; [reflexivity|].
  apply Forall_replicate. split; [reflexivity|].
  apply Forall_singleton. lia.
Qed.

Lemma fit_steps_and_lines_witness :
  ∃ pl' w' final lines,
    fit zero_grad adam_optimizer (Globals 0%nat 1%nat) 2%nat sevens_world
    = Some (pl', w') ∧
    length (enumerate (zip (TRAINING_DATA sevens) (label_rows sevens)))
    = 1000%nat ∧
    steps_in_order zero_grad adam_optimizer
      (enumerate (zip (TRAINING_DATA sevens) (label_rows sevens)))
      (initial_params (λ _ _ _, 0))
      (init adam_optimizer (initial_params (λ _ _ _, 0)))
    = Some (final, lines) ∧
    size (heap w') = (size (heap sevens_world) + 1000)%nat ∧
    stdout w' = stdout sevens_world ++ lines ∧
    line_step <$> lines
    = [0; 100; 200; 300; 400; 500; 600; 700; 800; 900]%nat ∧
    length lines = 10%nat ∧
    heap w' !! pl' = Some (ODict final).
Proof.
  apply (fit_steps_and_lines zero_grad adam_optimizer sevens (Globals 0%nat 1%nat)
           2%nat sevens_world (initial_params (λ _ _ _, 0)) (label_rows sevens)).
  - exact zero_grad_like_params.
  - apply adam_optimizer_preserves.
  - exact randint_sevens.
  - reflexivity.
  - apply LABELS_rows, randint_sevens.
  - reflexivity.
  - reflexivity.
  - apply tree_shape_initial_params.
Defined.

End FitTheorems.

Section NotebookTheorems.
Import Training.
Local Open Scope R_scope.

(** Cells 1 and 2 from an empty heap: three objects, at 0, 1 and 2. *)
Lemma cells_1_2_run sample raw labels :
  LABELS raw = Some labels →
  cells_1_2 sample raw (World ∅ [])
  = Some (Names (Globals 0%nat 1%nat) 2%nat None,
          World (<[2%nat := ODict (initial_params sample)]>
                   (<[1%nat := OFloat32 labels]>
                      (<[0%nat := OUint8 (TRAINING_DATA raw)]> ∅))) []).
Proof.
  intros Hlabels. unfold cells_1_2.
  rewrite bind_run. cbn [alloc heap stdout].
  rewrite bind_run, Hlabels. cbn [lift fmap option_fmap option_map].
  rewrite bind_run. cbn [alloc heap stdout].
  rewrite bind_run. cbn [alloc heap stdout].
  reflexivity.
Qed.

(** One run of [fit] in the notebook. *)
Lemma run_fit_ok grad opt raw sample n w :
  grad_like_params grad → preserves_structure param_shape opt →
  randint 255 NUM_TRAIN_STEPS BATCH_SIZE 1 raw →
  heap w !! TRAINING_DATA_ref (G n) = Some (OUint8 (TRAINING_DATA raw)) →
  heap w !! LABELS_ref (G n) = Some (OFloat32 (label_rows raw)) →
  heap w !! initial_params_ref n = Some (ODict (initial_params sample)) →
  ∃ pl' w' lines batch labels value,
    run_fit grad opt n w
    = Some (Names (G n) (initial_params_ref n) (Some pl'), w') ∧
    heap w ⊆ heap w' ∧
    size (heap w') = (size (heap w) + NUM_TRAIN_STEPS)%nat ∧
    stdout w' = stdout w ++ lines ∧
    TRAINING_DATA raw !! 0%nat = Some batch ∧
    label_rows raw !! 0%nat = Some labels ∧
    loss (initial_params sample) (promote batch) labels = Some value ∧
    head lines = Some (Line 0 value) ∧
    (∀ l o, heap w' !! l = Some o →
            heap w !! l = Some o
            ∨ ∃ d, o = ODict d ∧ tree_shape d = param_shape).
Proof.
  intros Hgrad Hopt Hraw Htd Hlb Hip.
  destruct (fit_ok grad opt raw (G n) (initial_params_ref n) w
              (initial_params sample) (label_rows raw))
    as (pl' & w' & final & lines & Hfit & Hsteps & _ & _ & Hout & Hsub
        & Hsize & Hnew);
    try done; try (by apply LABELS_rows);
    try apply tree_shape_initial_params.
  destruct (TRAINING_DATA_shape raw Hraw) as [Hltd _].
  destruct (LABELS_shape raw Hraw) as (lb' & Hlb' & Hllb & _).
  rewrite (LABELS_rows raw Hraw) in Hlb'. injection Hlb' as <-.
  destruct (TRAINING_DATA raw) as [|batch td] eqn:Etd; [done|].
  destruct (label_rows raw) as [|labels lb] eqn:Elb; [done|].
  change (enumerate (zip (batch :: td) (labels :: lb)))
    with ((0%nat, (batch, labels))
          :: zip (seq 1 (length (zip td lb))) (zip td lb)) in Hsteps.
  destruct (steps_in_order_first_line _ _ _ _ _ _ _ _ _ Hsteps)
    as (value & Hvalue & Hhead).
  exists pl', w', lines, batch, labels, value.
  split; [|done].
  unfold run_fit. rewrite bind_run, Hfit. reflexivity.
Qed.

(** The whole notebook, from an empty heap. *)
Lemma notebook_ok grad sample raw :
  grad_like_params grad → randint 255 NUM_TRAIN_STEPS BATCH_SIZE 1 raw →
  ∃ n2 w2 n3 w3 n4 w4 lines3 lines4 batch labels value,
    cells_1_2 sample raw (World ∅ []) = Some (n2, w2) ∧
    cell_3 grad n2 w2 = Some (n3, w3) ∧
    cell_4 grad n3 w3 = Some (n4, w4) ∧
    notebook grad sample raw (World ∅ []) = Some (n4, w4) ∧
    (G n3 = G n2 ∧ initial_params_ref n3 = initial_params_ref n2) ∧
    (G n4 = G n2 ∧ initial_params_ref n4 = initial_params_ref n2) ∧
    heap w2 !! TRAINING_DATA_ref (G n2) = Some (OUint8 (TRAINING_DATA raw)) ∧
    heap w2 !! LABELS_ref (G n2) = Some (OFloat32 (label_rows raw)) ∧
    heap w2 !! initial_params_ref n2 = Some (ODict (initial_params sample)) ∧
    heap w2 ⊆ heap w3 ∧ heap w3 ⊆ heap w4 ∧
    size (heap w4) = 2003%nat ∧
    (∀ l d, heap w4 !! l = Some (ODict d) → tree_shape d = param_shape) ∧
    stdout w3 = lines3 ∧ stdout w4 = lines3 ++ lines4 ∧
    TRAINING_DATA raw !! 0%nat = Some batch ∧
    label_rows raw !! 0%nat = Some labels ∧
    loss (initial_params sample) (promote batch) labels = Some value ∧
    head lines3 = Some (Line 0 value) ∧
    head lines4 = Some (Line 0 value).
Proof.
  intros Hgrad Hraw.
  pose proof (cells_1_2_run sample raw _ (LABELS_rows raw Hraw)) as H12.
  set (n2 := Names (Globals 0%nat 1%nat) 2%nat None) in *.
  set (w2 := World (<[2%nat := ODict (initial_params sample)]>
                      (<[1%nat := OFloat32 (label_rows raw)]>
                         (<[0%nat := OUint8 (TRAINING_DATA raw)]> ∅))) [])
    in H12.
  assert (Htd2 : heap w2 !! 0%nat = Some (OUint8 (TRAINING_DATA raw)))
    by reflexivity.
  assert (Hlb2 : heap w2 !! 1%nat = Some (OFloat32 (label_rows raw)))
    by reflexivity.
  assert (Hip2 : heap w2 !! 2%nat = Some (ODict (initial_params sample)))
    by reflexivity.
  assert (Hsize2 : size (heap w2) = 3%nat) by reflexivity.
  destruct (run_fit_ok grad adam_optimizer raw sample n2 w2)
    as (pl3 & w3 & lines3 & batch & labels & value & Hrun3 & Hsub3 & Hsize3
        & Hout3 & Hb & Hl & Hvalue & Hhead3 & Hnew3);
    try done; [apply adam_optimizer_preserves|].
  set (n3 := Names (G n2) (initial_params_ref n2) (Some pl3)) in *.
  destruct (run_fit_ok grad clipped_adamw_optimizer raw sample n3 w3)
    as (pl4 & w4 & lines4 & batch' & labels' & value' & Hrun4 & Hsub4 & Hsize4
        & Hout4 & Hb' & Hl' & Hvalue' & Hhead4 & Hnew4);
    try done; try (by eapply lookup_weaken);
    [apply clipped_adamw_optimizer_preserves|].
  assert (batch' = batch) as -> by congruence.
  assert (labels' = labels) as -> by congruence.
  assert (value' = value) as -> by congruence.
  exists n2, w2, n3, w3,
    (Names (G n3) (initial_params_ref n3) (Some pl4)), w4,
    lines3, lines4, batch, labels, value.
  split; [done|]. split; [done|]. split; [done|].
  split.
  { unfold notebook. rewrite bind_run, H12, bind_run.
    change (cell_3 grad n2 w2) with (run_fit grad adam_optimizer n2 w2).
    rewrite Hrun3. exact Hrun4. }
  split; [done|]. split; [done|]. split; [done|]. split; [done|].
  split; [done|]. split; [done|]. split; [done|].
  split.
  { rewrite Hsize4, Hsize3, Hsize2. reflexivity. }
  split.
  { intros l d Hl4. destruct (Hnew4 l _ Hl4) as [Hl3|(d' & Heq & Hd')].
    - destruct (Hnew3 l _ Hl3) as [Hl2|(d' & Heq & Hd')].
      + assert (l = 2%nat ∨ l = 1%nat ∨ l = 0%nat ∨ heap w2 !! l = None)
          as [->|[->|[->|Hnone]]].
        { destruct (decide (l = 2%nat)); [by left|].
          destruct (decide (l = 1%nat)); [by right; left|].
          destruct (decide (l = 0%nat)); [by right; right; left|].
          right; right; right. unfold w2. cbn [heap].
          by rewrite !lookup_insert_ne, lookup_empty. }
        * pose proof (eq_trans (eq_sym Hl2) Hip2) as [= ->].
          apply tree_shape_initial_params.
        * pose proof (eq_trans (eq_sym Hl2) Hlb2) as [=].
        * pose proof (eq_trans (eq_sym Hl2) Htd2) as [=].
        * pose proof (eq_trans (eq_sym Hl2) Hnone) as [=].
      + injection Heq as <-. exact Hd'.
    - injection Heq as <-. exact Hd'. }
  split; [by rewrite Hout3|].
  split; [by rewrite Hout4, Hout3|].
  done.
Qed.

(** C7.  The initial parameter record holds exactly ['hidden'] (8 by 32)
    and ['output'] (32 by 2).  With either optimizer of the notebook, a
    step on such a record and a well-shaped batch returns such a record
    again (the optimizer state keeps what it needs for that).  After the
    two runs the heap holds 3 + 2 * 1000 objects, and every parameter
    record among them, one per step, has these keys and shapes. *)
Theorem parameter_record_keeps_keys_and_shapes grad sample raw :
  grad_like_params grad → randint 255 NUM_TRAIN_STEPS BATCH_SIZE 1 raw →
  two_weight_matrices (initial_params sample) ∧
  (∀ opt, opt = adam_optimizer ∨ opt = clipped_adamw_optimizer →
     ∃ state_ok : OptState opt → Prop,
       state_ok (init opt (initial_params sample)) ∧
       ∀ params st batch labels (k : nat),
         two_weight_matrices params → state_ok st →
         has_shape (S k) 8 batch → has_shape (S k) 2 labels →
         ∃ params' st' value,
           step grad opt params st batch labels = Some (params', st', value)
           ∧ two_weight_matrices params' ∧ state_ok st') ∧
  ∃ n w,
    notebook grad sample raw (World ∅ []) = Some (n, w) ∧
    size (heap w) = 2003%nat ∧
    ∀ l d, heap w !! l = Some (ODict d) → two_weight_matrices d.
Proof.
  intros Hgrad Hraw. split; [|split].
  - apply param_shape_inv, tree_shape_initial_params.
  - intros opt Hopt.
    assert (Hpres : preserves_structure param_shape opt).
    { destruct Hopt as [-> | ->];
        [apply adam_optimizer_preserves|apply clipped_adamw_optimizer_preserves]. }
    destruct Hpres as (state_ok & Hinit & Hupd).
    exists state_ok. split; [apply Hinit, tree_shape_initial_params|].
    intros params st batch labels k Hp%param_shape_intro Hst Hb Hl.
    destruct (step_ok grad opt state_ok params st batch labels)
      as (p' & st' & v & Hstep & Hp' & Hst'); try done.
    { exists k. by split. }
    exists p', st', v. split; [done|]. split; [by apply param_shape_inv|done].
  - destruct (notebook_ok grad sample raw Hgrad Hraw)
      as (n2 & w2 & n3 & w3 & n4 & w4 & lines3 & lines4 & batch & labels
          & value & _ & _ & _ & Hnb & _ & _ & _ & _ & _ & _ & _ & Hsize
          & Hall & _).
    exists n4, w4. split; [done|]. split; [done|].
    intros l d Hl. by apply param_shape_inv, (Hall l).
Qed.

Lemma parameter_record_keeps_keys_and_shapes_witness :
  two_weight_matrices (initial_params (λ _ _ _, 0)) ∧
  (∃ params' st' value,
     step zero_grad adam_optimizer (initial_params (λ _ _ _, 0))
          (init adam_optimizer (initial_params (λ _ _ _, 0)))
          (replicate 5 (replicate 8 1%Z)) (replicate 5 [0; 1])
     = Some (params', st', value)
     ∧ two_weight_matrices params') ∧
  ∃ n w,
    notebook zero_grad (λ _ _ _, 0) sevens (World ∅ []) = Some (n, w) ∧
    size (heap w) = 2003%nat ∧
    ∀ l d, heap w !! l = Some (ODict d) → two_weight_matrices d.
Proof.
  destruct (parameter_record_keeps_keys_and_shapes zero_grad (λ _ _ _, 0) sevens
              zero_grad_like_params randint_sevens) as (Hinit & Hstep & Hrun).
  split; [exact Hinit|]. split; [|exact Hrun].
  destruct (Hstep adam_optimizer (or_introl eq_refl)) as (state_ok & Hok & Hkeep).
  destruct (Hkeep (initial_params (λ _ _ _, 0))
              (init adam_optimizer (initial_params (λ _ _ _, 0)))
              (replicate 5 (replicate 8 1%Z)) (replicate 5 [0; 1]) 4%nat
              Hinit Hok eq_refl eq_refl)
    as (params' & st' & value & Hrun1 & Hshape & _).
  exists params', st', value. split; [exact Hrun1|exact Hshape].
Defined.

(** C9.  [fit] only adds objects to the heap.  After cell 3, and after
    cell 4, the names [initial_params], [TRAINING_DATA] and [LABELS]
    refer to the objects they referred to before, and these objects are
    as cells 1 and 2 made them.  So the first line of each run shows the
    same loss, that of [initial_params] on the first batch; in the
    recorded outputs it is 5.507180690765381 both times. *)
Theorem fit_leaves_initial_params_and_data grad sample raw :
  grad_like_params grad → randint 255 NUM_TRAIN_STEPS BATCH_SIZE 1 raw →
  (∃ n2 w2 n3 w3 n4 w4 lines3 lines4 batch labels value,
    cells_1_2 sample raw (World ∅ []) = Some (n2, w2) ∧
    cell_3 grad n2 w2 = Some (n3, w3) ∧
    cell_4 grad n3 w3 = Some (n4, w4) ∧
    (G n3 = G n2 ∧ initial_params_ref n3 = initial_params_ref n2) ∧
    (G n4 = G n2 ∧ initial_params_ref n4 = initial_params_ref n2) ∧
    heap w2 ⊆ heap w3 ∧ heap w3 ⊆ heap w4 ∧
    (∀ w, w = w2 ∨ w = w3 ∨ w = w4 →
       heap w !! initial_params_ref n2 = Some (ODict (initial_params sample)) ∧
       heap w !! TRAINING_DATA_ref (G n2) = Some (OUint8 (TRAINING_DATA raw)) ∧
       heap w !! LABELS_ref (G n2) = Some (OFloat32 (label_rows raw))) ∧
    stdout w3 = lines3 ∧ stdout w4 = lines3 ++ lines4 ∧
    TRAINING_DATA raw !! 0%nat = Some batch ∧
    label_rows raw !! 0%nat = Some labels ∧
    loss (initial_params sample) (promote batch) labels = Some value ∧
    head lines3 = Some (Line 0 value) ∧
    head lines4 = Some (Line 0 value)) ∧
  head adam_run_output = Some (0%nat, 5.507180690765381%Q) ∧
  head clipped_adamw_run_output = Some (0%nat, 5.507180690765381%Q).
Proof.
  intros Hgrad Hraw. split; [|split; reflexivity].
  destruct (notebook_ok grad sample raw Hgrad Hraw)
    as (n2 & w2 & n3 & w3 & n4 & w4 & lines3 & lines4 & batch & labels
        & value & H12 & H3 & H4 & _ & Hn3 & Hn4 & Htd & Hlb & Hip & Hsub3
        & Hsub4 & _ & _ & Hout3 & Hout4 & Hb & Hl & Hvalue & Hhead3 & Hhead4).
  exists n2, w2, n3, w3, n4, w4, lines3, lines4, batch, labels, value.
  repeat (split; [done|]).
  split; [|done].
  intros w [-> | [-> | ->]].
  - done.
  - repeat split; by eapply lookup_weaken.
  - repeat split; eapply lookup_weaken; try exact Hsub4;
      by eapply lookup_weaken.
Qed.

Lemma fit_leaves_initial_params_and_data_witness :
  ∃ n2 w2 n3 w3,
    cells_1_2 (λ _ _ _, 0) sevens (World ∅ []) = Some (n2, w2) ∧
    cell_3 zero_grad n2 w2 = Some (n3, w3) ∧
    heap w3 !! initial_params_ref n3
    = Some (ODict (initial_params (λ _ _ _, 0))) ∧
    heap w3 !! TRAINING_DATA_ref (G n3) = Some (OUint8 (TRAINING_DATA sevens)) ∧
    heap w3 !! LABELS_ref (G n3) = Some (OFloat32 (label_rows sevens)).
Proof.
  destruct (fit_leaves_initial_params_and_data zero_grad (λ _ _ _, 0) sevens
              zero_grad_like_params randint_sevens)
    as ((n2 & w2 & n3 & w3 & n4 & w4 & lines3 & lines4 & batch & labels
         & value & H12 & H3 & _ & [HG Hip] & _ & _ & _ & Hsame & _) & _).
  exists n2, w2, n3, w3. split; [done|]. split; [done|].
  rewrite HG, Hip. apply Hsame. right. by left.
Defined.


End NotebookTheorems.

(** ** Part III. Further properties of the notebooks' code *)

Section MoreJittingTheorems.
Import Jitting.
Open Scope Z_scope.

Ltac int32_small_literals :=
  repeat match goal with
  | |- context [in_int32 0] => change (in_int32 0) with true
  | |- context [in_int32 1] => change (in_int32 1) with true
  end.

Lemma while_python_exits fuel i n :
  n ≤ i →
  py_while (S fuel) (λ i, py_binop Lt i (PyInt n))
                    (λ i, py_binop Add i (PyInt 1)) (PyInt i) = Ok (PyInt i).
Proof.
  intros Hn. cbn.
  replace (i <? n) with false by (symmetry; apply Z.ltb_ge; lia).
  reflexivity.
Qed.

(** X1.  Plain [g] on any two Python ints: the loop counts up to [n] when [n]
    is positive and does not run otherwise, so [g(x, n)] is
    [x + max(0, n)]; nothing overflows. *)
Theorem g_adds_positive_part fuel x n :
  (Z.to_nat n < fuel)%nat →
  body (g fuel) [PyInt x; PyInt n] = Ok (PyInt (x + Z.max 0 n)).
Proof.
  intros Hfuel. cbn [body g].
  destruct (Z.le_gt_cases n 0) as [Hn|Hn].
  - unfold g_body. destruct fuel as [|fuel]; [lia|].
    rewrite while_python_exits by done. cbn.
    by rewrite Z.max_l, Z.add_0_r by lia.
  - rewrite g_body_python by lia. by rewrite Z.max_r by lia.
Qed.

Lemma g_adds_positive_part_witness :
  body (g 1) [PyInt (2 ^ 40); PyInt (-5)] = Ok (PyInt (2 ^ 40 + Z.max 0 (-5))).
Proof. apply (g_adds_positive_part 1 (2 ^ 40) (-5)). cbn. lia. Defined.

(** X2.  The jitted loop body adds 1 in int32: it agrees with the plain
    [unjitted_loop_body] on every int32 below the largest one, and at
    2147483647 it wraps to -2147483648 where plain Python carries on. *)
Theorem loop_body_adds_one_in_int32 i :
  in_int32 i = true →
  loop_body [PyInt i] = Ok (Arr (wrap32 (i + 1))) ∧
  loop_body [Arr i] = Ok (Arr (wrap32 (i + 1))) ∧
  unjitted_loop_body (PyInt i) = Ok (PyInt (i + 1)) ∧
  (i < INT32_MAX → wrap32 (i + 1) = i + 1) ∧
  (i = INT32_MAX → wrap32 (i + 1) = INT32_MIN).
Proof.
  intros Hi. split; [|split; [|split; [|split]]].
  - unfold loop_body, jit. rewrite trace_args_1. cbn. rewrite Hi. cbn.
    int32_small_literals. reflexivity.
  - unfold loop_body, jit. rewrite trace_args_1. cbn.
    int32_small_literals. reflexivity.
  - reflexivity.
  - intros Hlt. apply wrap32_small. apply in_int32_bounds.
    apply in_int32_bounds in Hi. unfold INT32_MIN, INT32_MAX in *. lia.
  - intros ->. reflexivity.
Qed.

Lemma loop_body_adds_one_in_int32_witness :
  loop_body [PyInt 2147483647] = Ok (Arr (-2147483648)) ∧
  unjitted_loop_body (PyInt 2147483647) = Ok (PyInt 2147483648).
Proof.
  destruct (loop_body_adds_one_in_int32 2147483647 eq_refl)
    as (Hjit & _ & Hplain & _ & Hwrap).
  split; [|exact Hplain].
  rewrite Hjit, (Hwrap eq_refl). reflexivity.
Defined.

(** Calling [jax.jit] inside the loop, on [unjitted_loop_body] itself, on
    a [partial] of it or on a [lambda] around it, is calling the jitted
    [loop_body]. *)
Lemma jit_in_loop_is_loop_body name v : jit_in_loop name v = loop_body [v].
Proof. reflexivity. Qed.

(** X3.  What [g_inner_jitted] returns depends on whether the loop runs: for
    [n <= 0] it is the Python int [x] itself, of any size; for [n >= 1]
    (everything within int32) it is a jax array holding [x + n]. *)
Theorem g_inner_jitted_int_or_array fuel x n :
  (n ≤ 0 → g_inner_jitted (S fuel) (PyInt x) (PyInt n) = Ok (PyInt x)) ∧
  (0 < n → in_int32 x = true → in_int32 n = true → in_int32 (x + n) = true →
   (Z.to_nat n < S fuel)%nat →
   g_inner_jitted (S fuel) (PyInt x) (PyInt n) = Ok (Arr (x + n))).
Proof.
  split.
  - intros Hn. unfold g_inner_jitted. cbn -[loop_body].
    replace (0 <? n) with false by (symmetry; apply Z.ltb_ge; lia).
    cbn. by rewrite Z.add_0_r.
  - intros Hn Hx Hn32 Hxn Hfuel. unfold g_inner_jitted. cbn -[loop_body].
    replace (0 <? n) with true by (symmetry; apply Z.ltb_lt; lia).
    cbn -[loop_body]. rewrite (loop_body_int 0) by done. cbn -[loop_body].
    rewrite (while_inner_counts (Z.to_nat n - 1)); try done; try lia.
    unfold mbind, result_bind. cbn. rewrite Hx. cbn.
    rewrite wrap32_small by done. reflexivity.
Qed.

Lemma g_inner_jitted_int_or_array_witness :
  g_inner_jitted 1 (PyInt (2 ^ 40)) (PyInt 0) = Ok (PyInt (2 ^ 40)) ∧
  g_inner_jitted 21 (PyInt 10) (PyInt 20) = Ok (Arr (10 + 20)).
Proof.
  split.
  - apply (proj1 (g_inner_jitted_int_or_array 0 (2 ^ 40) 0)). lia.
  - apply (proj2 (g_inner_jitted_int_or_array 20 10 20));
      try reflexivity; lia.
Defined.

(** X4.  The three functions of the caching section, which call [jax.jit]
    inside the loop, return [x + n] as [g_inner_jitted] does (for
    [n >= 0], everything within int32): how the callable is wrapped
    changes the compilations, not the result. *)
Theorem jit_in_loop_variants_add fuel x n :
  in_int32 x = true → in_int32 n = true → in_int32 (x + n) = true →
  0 ≤ n → (Z.to_nat n < fuel)%nat →
  int_of <$> g_inner_jitted_partial fuel (PyInt x) (PyInt n) = Ok (Some (x + n)) ∧
  int_of <$> g_inner_jitted_lambda fuel (PyInt x) (PyInt n) = Ok (Some (x + n)) ∧
  int_of <$> g_inner_jitted_normal fuel (PyInt x) (PyInt n) = Ok (Some (x + n)).
Proof.
  intros Hx Hn Hxn Hn0 Hfuel.
  change (g_inner_jitted_partial fuel (PyInt x) (PyInt n))
    with (g_inner_jitted fuel (PyInt x) (PyInt n)).
  change (g_inner_jitted_lambda fuel (PyInt x) (PyInt n))
    with (g_inner_jitted fuel (PyInt x) (PyInt n)).
  change (g_inner_jitted_normal fuel (PyInt x) (PyInt n))
    with (g_inner_jitted fuel (PyInt x) (PyInt n)).
  repeat split; by apply g_inner_jitted_counts.
Qed.

Lemma jit_in_loop_variants_add_witness :
  int_of <$> g_inner_jitted_partial 21 (PyInt 10) (PyInt 20) = Ok (Some 30) ∧
  int_of <$> g_inner_jitted_lambda 21 (PyInt 10) (PyInt 20) = Ok (Some 30) ∧
  int_of <$> g_inner_jitted_normal 21 (PyInt 10) (PyInt 20) = Ok (Some 30).
Proof.
  apply (jit_in_loop_variants_add 21 10 20); try reflexivity; lia.
Defined.

End MoreJittingTheorems.

Section TracingTheorems.
Import Tracing.
Local Open Scope R_scope.





























End TracingTheorems.

Section MoreDataTheorems.
Import Training.
Local Open Scope Z_scope.

(** X9.  [np.random.randint(255, ...)] never draws 255, so no example has all
    eight feature bits set. *)
Theorem features_never_all_ones raw s e :
  randint 255 NUM_TRAIN_STEPS BATCH_SIZE 1 raw →
  (s < NUM_TRAIN_STEPS)%nat → (e < BATCH_SIZE)%nat →
  ∃ features,
    TRAINING_DATA raw !! s ≫= (.!! e) = Some features ∧
    features ≠ [1; 1; 1; 1; 1; 1; 1; 1].
Proof.
  intros Hraw Hs He.
  destruct (randint_lookup _ _ _ _ _ _ Hraw Hs He)
    as (m & r & Hm & Hlm & Hv & Hones & Hr).
  exists (unpackbits1 r). split.
  - unfold TRAINING_DATA, map3. rewrite !list_lookup_fmap, Hm.
    cbn -[unpackbits astype_uint8]. rewrite !list_lookup_fmap, Hv.
    cbn -[unpackbits1 astype_uint8]. unfold astype_uint8.
    rewrite Z.mod_small by lia. by rewrite app_nil_r.
  - intros Hall. pose proof (packbits_unpackbits1 r) as Hpack.
    rewrite Hall in Hpack. cbn in Hpack. lia.
Qed.

Lemma features_never_all_ones_witness :
  ∃ features,
    TRAINING_DATA sevens !! 0%nat ≫= (.!! 0%nat) = Some features ∧
    features ≠ [1; 1; 1; 1; 1; 1; 1; 1].
Proof.
  apply (features_never_all_ones sevens 0 0 randint_sevens);
    [unfold NUM_TRAIN_STEPS|unfold BATCH_SIZE]; lia.
Defined.

Lemma length_chunks {A : Type} (count size : nat) (l : list A) :
  length (chunks count size l) = count.
Proof.
  revert l. induction count as [|count IH]; intros l; cbn; [done|].
  by rewrite IH.
Qed.

Lemma concat_chunks {A : Type} (count size : nat) (l : list A) :
  length l = (count * size)%nat → concat (chunks count size l) = l.
Proof.
  revert l. induction count as [|count IH]; intros l Hl; cbn.
  - by destruct l.
  - rewrite IH; [apply take_drop|]. rewrite length_drop. lia.
Qed.

Lemma chunks_sizes {A : Type} (count size : nat) (l : list A) :
  length l = (count * size)%nat →
  Forall (λ c, length c = size) (chunks count size l).
Proof.
  revert l. induction count as [|count IH]; intros l Hl; cbn; [done|].
  constructor.
  - rewrite length_take. lia.
  - apply IH. rewrite length_drop. lia.
Qed.

Lemma chunks_Forall {A : Type} (P : A → Prop) (count size : nat) (l : list A) :
  Forall P l → Forall (Forall P) (chunks count size l).
Proof.
  revert l. induction count as [|count IH]; intros l Hl; cbn; [done|].
  constructor; [by apply Forall_take|]. by apply IH, Forall_drop.
Qed.

(** X10.  [.reshape(d0, d1, d2)] returns exactly when the array has
    [d0 * d1 * d2] elements; the result then has [d0] blocks of [d1] rows
    of [d2] elements, and flattening it gives the elements back in their
    order. *)
Theorem reshape3_round_trip (d0 d1 d2 : nat) (flat : list R) :
  (is_Some (reshape3 d0 d1 d2 flat) ↔ length flat = (d0 * d1 * d2)%nat) ∧
  ∀ t, reshape3 d0 d1 d2 flat = Some t →
       length t = d0 ∧ Forall (has_shape d1 d2) t ∧
       concat (concat t) = flat.
Proof.
  unfold reshape3. split.
  - destruct (decide (length flat = (d0 * d1 * d2)%nat)) as [Hl|Hl].
    + split; [done|]. intros _. by eexists.
    + split; [by intros [? ?]|done].
  - intros t Ht.
    destruct (decide (length flat = (d0 * d1 * d2)%nat)) as [Hl|Hl]; [|done].
    injection Ht as <-.
    pose proof (chunks_sizes (d0 * d1) d2 flat Hl) as Hrows.
    pose proof (length_chunks (d0 * d1) d2 flat) as Hnrows.
    split; [apply length_chunks|]. split.
    + pose proof (chunks_sizes d0 d1 (chunks (d0 * d1) d2 flat) Hnrows) as Hb.
      pose proof (chunks_Forall (λ c : list R, length c = d2) d0 d1 _ Hrows)
        as Hin.
      apply Forall_forall. intros block Hblock.
      apply has_shape_intro.
      * by eapply Forall_forall in Hb.
      * by eapply Forall_forall in Hin.
    + by rewrite !concat_chunks.
Qed.

Lemma reshape3_round_trip_witness :
  length [[[1; 2]; [3; 4]]]%R = 1%nat ∧
  Forall (has_shape 2 2) [[[1; 2]; [3; 4]]]%R ∧
  concat (concat [[[1; 2]; [3; 4]]]%R) = [1; 2; 3; 4]%R.
Proof.
  apply (proj2 (reshape3_round_trip 1 2 2 [1; 2; 3; 4]%R)). reflexivity.
Defined.

Lemma one_hot_2_row z :
  sum (one_hot 2 (z mod 2)) = 1%R ∧
  Forall (λ v, v = 0%R ∨ v = 1%R) (one_hot 2 (z mod 2)).
Proof.
  destruct (Z.mod_pos_bound z 2) as [? ?]; [lia|].
  assert (Hbit : z mod 2 = 0 ∨ z mod 2 = 1) by lia.
  destruct Hbit as [-> | ->].
  - change (one_hot 2 0) with [1; 0]%R. cbn.
    split; [lra|]. rewrite !Forall_cons, Forall_nil. auto.
  - change (one_hot 2 1) with [0; 1]%R. cbn.
    split; [lra|]. rewrite !Forall_cons, Forall_nil. auto.
Qed.

(** X11.  The arrays of cell 1, whatever the draw: [TRAINING_DATA] is 1000 by 5
    by 8 with entries 0 or 1; [LABELS] is 1000 by 5 by 2 with entries 0 or
    1, and each of its rows sums to 1. *)
Theorem training_arrays_shapes_and_ranges raw :
  randint 255 NUM_TRAIN_STEPS BATCH_SIZE 1 raw →
  (length (TRAINING_DATA raw) = 1000%nat ∧
   Forall (has_shape 5 8) (TRAINING_DATA raw) ∧
   Forall (Forall (Forall (λ b, b = 0 ∨ b = 1))) (TRAINING_DATA raw)) ∧
  ∃ labels,
    LABELS raw = Some labels ∧ length labels = 1000%nat ∧
    Forall (has_shape 5 2) labels ∧
    Forall (Forall (λ row, sum row = 1%R
                           ∧ Forall (λ v, v = 0%R ∨ v = 1%R) row)) labels.
Proof.
  intros Hraw. split.
  - destruct (TRAINING_DATA_shape raw Hraw) as [Hlen Hshape].
    split; [exact Hlen|]. split; [exact Hshape|].
    unfold TRAINING_DATA, map3.
    apply Forall_fmap, Forall_fmap, Forall_forall. intros m _.
    cbn -[unpackbits astype_uint8].
    apply Forall_fmap, Forall_fmap, Forall_forall. intros v _.
    cbn -[unpackbits astype_uint8]. unfold unpackbits.
    induction (astype_uint8 <$> v) as [|z zs IH]; [constructor|].
    cbn -[unpackbits1]. apply Forall_app. split; [apply unpackbits1_bits|].
    exact IH.
  - destruct (LABELS_shape raw Hraw) as (labels & Hlabels & Hlen & Hshape).
    exists labels. split; [exact Hlabels|]. split; [exact Hlen|].
    split; [exact Hshape|].
    rewrite (LABELS_rows raw Hraw) in Hlabels. injection Hlabels as <-.
    unfold label_rows. apply Forall_fmap, Forall_forall. intros m _.
    cbn -[one_hot]. apply Forall_fmap, Forall_forall. intros z _.
    apply one_hot_2_row.
Qed.

Lemma training_arrays_shapes_and_ranges_witness :
  length (TRAINING_DATA sevens) = 1000%nat ∧
  ∃ labels, LABELS sevens = Some labels ∧ Forall (has_shape 5 2) labels.
Proof.
  destruct (training_arrays_shapes_and_ranges sevens randint_sevens)
    as ((Hlen & _ & _) & labels & Hlabels & _ & Hshape & _).
  split; [exact Hlen|]. exists labels. split; [exact Hlabels|exact Hshape].
Defined.

End MoreDataTheorems.

Section MoreNetworkTheorems.
Import Training.
Local Open Scope R_scope.

Lemma log_sigmoid_negative x : log_sigmoid x < 0.
Proof.
  unfold log_sigmoid. pose proof (exp_pos (- x)) as Hexp.
  assert (0 < ln (1 + exp (- x))).
  { rewrite <- ln_1. apply ln_increasing; lra. }
  lra.
Qed.

Lemma sigmoid_binary_cross_entropy_nonnegative logit label :
  0 <= label <= 1 → 0 <= sigmoid_binary_cross_entropy logit label.
Proof.
  intros Hl. unfold sigmoid_binary_cross_entropy. cbv zeta.
  pose proof (log_sigmoid_negative logit) as Hp.
  pose proof (log_sigmoid_negative (- logit)) as Hn.
  assert (0 <= label * - log_sigmoid logit)
    by (apply Rmult_le_pos; lra).
  assert (0 <= (1 - label) * - log_sigmoid (- logit))
    by (apply Rmult_le_pos; lra).
  lra.
Qed.

Lemma sum_nonnegative (v : list R) : Forall (λ x, 0 <= x) v → 0 <= sum v.
Proof. unfold sum. induction 1 as [|x v Hx _ IH]; cbn; lra. Qed.

Lemma cross_entropy_rows_nonnegative (y labels : list (list R)) :
  Forall (Forall (λ l, 0 <= l <= 1)) labels →
  Forall (λ x, 0 <= x)
         (sum <$> zip_with (zip_with sigmoid_binary_cross_entropy) y labels).
Proof.
  intros Hlabels. revert y.
  induction Hlabels as [|lrow labels Hlrow _ IH]; intros [|yrow y]; cbn;
    try constructor; [|apply IH].
  apply sum_nonnegative. clear IH. revert yrow.
  induction Hlrow as [|l lrow Hl _ IHrow]; intros [|v yrow]; cbn;
    try constructor; [|apply IHrow].
  by apply sigmoid_binary_cross_entropy_nonnegative.
Qed.

(** X12.  The loss is never negative: whatever the parameters and the batch,
    on labels between 0 and 1, where [loss] returns it returns a value
    that is at least 0. *)
Theorem loss_nonnegative (params : gmap string (list (list R)))
    (batch labels : list (list R)) (value : R) :
  batch ≠ [] →
  Forall (Forall (λ l, 0 <= l <= 1)) labels →
  loss params batch labels = Some value → 0 <= value.
Proof.
  intros _ Hlabels. unfold loss.
  destruct (net batch params) as [y_hat|]; [|done]. cbn. unfold map2.
  destruct (decide (row_lengths y_hat = row_lengths labels)); [|done]. cbn.
  intros [= <-]. unfold mean.
  pose proof (sum_nonnegative _ (cross_entropy_rows_nonnegative y_hat labels
                                   Hlabels)) as Hsum.
  set (rows := sum <$> _) in *.
  destruct (length rows) as [|k].
  - cbn. unfold Rdiv. rewrite Rinv_0. lra.
  - apply Rmult_le_pos; [done|]. left. apply Rinv_0_lt_compat.
    apply lt_0_INR. lia.
Qed.

Lemma loss_nonnegative_witness :
  ∃ value,
    loss {[ "hidden" := replicate 8 (replicate 32 1);
            "output" := replicate 32 (replicate 2 1) ]}
         [replicate 8 1] [[0; 1]] = Some value ∧ 0 <= value.
Proof.
  destruct (loss_spec
              {[ "hidden" := replicate 8 (replicate 32 1);
                 "output" := replicate 32 (replicate 2 1) ]}
              (replicate 8 (replicate 32 1)) (replicate 32 (replicate 2 1))
              [replicate 8 1] [[0; 1]] 0)
    as (y_hat & _ & Hloss); try reflexivity.
  eexists. split; [exact Hloss|].
  apply (loss_nonnegative
           {[ "hidden" := replicate 8 (replicate 32 1);
              "output" := replicate 32 (replicate 2 1) ]}
           [replicate 8 1] [[0; 1]]); [done| |exact Hloss].
  repeat constructor; lra.
Defined.

Lemma entry_replicate_zero (r c i j : nat) :
  entry (replicate r (replicate c 0)) i j = 0.
Proof.
  unfold entry. destruct (decide (i < r)%nat) as [Hi|Hi].
  - rewrite (nth_lookup_default _ i [] (replicate c 0))
      by (by apply lookup_replicate_2).
    destruct (decide (j < c)%nat) as [Hj|Hj].
    + by rewrite (nth_lookup_default _ j 0 0) by (by apply lookup_replicate_2).
    + apply nth_overflow. rewrite length_replicate. lia.
  - rewrite (nth_overflow _ []) by (rewrite length_replicate; lia).
    by destruct j.
Qed.

Lemma sigmoid_binary_cross_entropy_0 label :
  sigmoid_binary_cross_entropy 0 label = ln 2.
Proof.
  unfold sigmoid_binary_cross_entropy, log_sigmoid. cbv zeta.
  rewrite !Ropp_0, exp_0. replace (1 + 1) with 2 by lra. lra.
Qed.

Lemma sum_const {A : Type} (c : R) (l : list A) :
  sum ((λ _, c) <$> l) = INR (length l) * c.
Proof.
  unfold sum. induction l as [|a l IH]; [cbn; lra|].
  cbn [fmap list_fmap foldr length]. rewrite S_INR.
  cbn [fmap list_fmap] in IH. rewrite IH. lra.
Qed.

Lemma big_sum_const (n : nat) (c : R) : big_sum n (λ _, c) = INR n * c.
Proof. unfold big_sum. by rewrite sum_const, length_seq. Qed.

(** X13.  With output weights all zero the loss is [2 ln 2], whatever the
    hidden weights, the batch and the labels: every logit is 0, and the
    cross-entropy of a logit 0 is [ln 2] for any label. *)
Theorem loss_with_zero_output_weights (params : gmap string (list (list R)))
    hidden batch labels (n : nat) :
  params !! "hidden" = Some hidden →
  params !! "output" = Some (replicate 32 (replicate 2 0)) →
  has_shape 8 32 hidden →
  has_shape (S n) 8 batch → has_shape (S n) 2 labels →
  loss params batch labels = Some (2 * ln 2).
Proof.
  intros Hh Ho Hhs Hb Hl.
  assert (Hos : has_shape 32 2 (replicate 32 (replicate 2 0)))
    by reflexivity.
  destruct (net_spec batch params hidden _ (S n) 7 31 2 Hh Ho Hb Hhs Hos)
    as (y & Hy & Hys & He).
  destruct (loss_spec params hidden _ batch labels n Hh Ho Hhs Hos Hb Hl)
    as (y' & Hy' & ->).
  assert (y' = y) as -> by congruence.
  f_equal.
  rewrite (big_sum_ext _ _ (λ _, 2 * ln 2)).
  - rewrite big_sum_const.
    assert (INR (S n) ≠ 0) by (apply not_0_INR; lia). by field.
  - intros i Hi. rewrite (big_sum_ext _ _ (λ _, ln 2)).
    + rewrite big_sum_const. cbn. lra.
    + intros j Hj. rewrite He by done.
      rewrite (big_sum_ext _ _ (λ _, 0)), big_sum_zero.
      * apply sigmoid_binary_cross_entropy_0.
      * intros c Hc. rewrite entry_replicate_zero. lra.
Qed.

Lemma loss_with_zero_output_weights_witness :
  loss {[ "hidden" := replicate 8 (replicate 32 1);
          "output" := replicate 32 (replicate 2 0) ]}
       [replicate 8 1] [[0; 1]] = Some (2 * ln 2).
Proof.
  apply (loss_with_zero_output_weights
           {[ "hidden" := replicate 8 (replicate 32 1);
              "output" := replicate 32 (replicate 2 0) ]}
           (replicate 8 (replicate 32 1)) [replicate 8 1] [[0; 1]] 0);
    reflexivity.
Defined.


End MoreNetworkTheorems.

Section MoreOptimizerTheorems.
Import Training.
Local Open Scope R_scope.

Lemma schedule_before t : (t ≤ 0)%Z → schedule t = 0.
Proof.
  intros Ht. rewrite schedule_unfold.
  replace (t <? 50)%Z with true by (symmetry; apply Z.ltb_lt; lia).
  unfold linear_schedule. cbn [Z.leb Z.compare].
  rewrite Z.max_r, Z.min_l by lia. lra.
Qed.

Lemma decay_angle_range t :
  (50 ≤ t ≤ 1000)%Z → 0 <= PI * IZR (t - 50) / 950 <= PI.
Proof.
  intros Ht. pose proof PI_RGT_0 as Hpi.
  assert (H0 : 0 <= IZR (t - 50)) by (apply IZR_le; lia).
  assert (H1 : IZR (t - 50) <= 950) by (apply IZR_le; lia).
  set (x := IZR (t - 50)) in *.
  replace (PI * x / 950) with (PI * (x / 950)) by lra.
  assert (0 <= x / 950 <= 1) by lra. nra.
Qed.

(** X14.  The learning rate of the second run over the steps: it stays between
    0 and 1; it is 0 exactly at the steps up to 0 and from 1000 on, and 1
    exactly at step 50; it does not decrease up to step 50 and does not
    increase after it. *)
Theorem schedule_profile :
  (∀ t, 0 <= schedule t <= 1) ∧
  (∀ t, schedule t = 0 ↔ (t ≤ 0 ∨ 1000 ≤ t)%Z) ∧
  (∀ t, schedule t = 1 ↔ t = 50%Z) ∧
  (∀ s t, (s ≤ t ≤ 50)%Z → schedule s <= schedule t) ∧
  (∀ s t, (50 ≤ s ≤ t)%Z → schedule t <= schedule s).
Proof.
  pose proof PI_RGT_0 as Hpi.
  assert (Hwarm : ∀ t, (0 ≤ t ≤ 50)%Z → 0 <= IZR t <= 50).
  { intros t Ht. split; apply IZR_le; lia. }
  assert (Hrange : ∀ t, 0 <= schedule t <= 1).
  { intros t. destruct (Z.le_gt_cases t 0) as [Ht|Ht].
    { rewrite schedule_before by done. lra. }
    destruct (Z.le_gt_cases t 50) as [Ht'|Ht'].
    { rewrite schedule_warmup by lia. specialize (Hwarm t ltac:(lia)). lra. }
    destruct (Z.le_gt_cases 1000 t) as [Ht''|Ht''].
    { rewrite schedule_end by done. lra. }
    rewrite schedule_decay by lia.
    pose proof (COS_bound (PI * IZR (t - 50) / 950)). lra. }
  split; [exact Hrange|]. split; [|split; [|split]].
  - intros t. split.
    + intros H0. destruct (Z.le_gt_cases t 0) as [Ht|Ht]; [by left|].
      destruct (Z.le_gt_cases 1000 t) as [Ht'|Ht']; [by right|]. exfalso.
      destruct (Z.le_gt_cases t 50) as [Ht''|Ht''].
      * rewrite schedule_warmup in H0 by lia.
        assert (1 <= IZR t) by (apply IZR_le; lia). lra.
      * rewrite schedule_decay in H0 by lia.
        assert (0 < IZR (t - 50)) by (apply IZR_lt; lia).
        assert (IZR (t - 50) < 950) by (apply IZR_lt; lia).
        apply (cos_above_minus_1 (PI * IZR (t - 50) / 950)); [|lra].
        set (x := IZR (t - 50)) in *.
        replace (PI * x / 950) with (PI * (x / 950)) by lra.
        assert (0 < x / 950 < 1) by lra. nra.
    + intros [Ht|Ht]; [by apply schedule_before|by apply schedule_end].
  - intros t. split.
    + intros H1. destruct (Z.le_gt_cases t 0) as [Ht|Ht].
      { rewrite schedule_before in H1 by done. lra. }
      destruct (Z.lt_ge_cases t 50) as [Ht'|Ht'].
      { rewrite schedule_warmup in H1 by lia.
        assert (IZR t <= 49) by (apply IZR_le; lia). lra. }
      destruct (Z.le_gt_cases 1000 t) as [Ht''|Ht''].
      { rewrite schedule_end in H1 by done. lra. }
      destruct (decide (t = 50%Z)) as [|Hne]; [done|]. exfalso.
      rewrite schedule_decay in H1 by lia.
      pose proof (decay_angle_range t ltac:(lia)) as [_ Hup].
      assert (0 < IZR (t - 50)) by (apply IZR_lt; lia).
      assert (Hpos : 0 < PI * IZR (t - 50) / 950).
      { set (x := IZR (t - 50)) in *.
        replace (PI * x / 950) with (PI * (x / 950)) by lra.
        assert (0 < x / 950) by lra. nra. }
      assert (Hcos : cos (PI * IZR (t - 50) / 950) < cos 0)
        by (apply cos_decreasing_1; lra).
      rewrite cos_0 in Hcos. lra.
    + intros ->. rewrite schedule_warmup by lia. lra.
  - intros s t Hst. destruct (Z.le_gt_cases s 0) as [Hs|Hs].
    { rewrite (schedule_before s) by done. apply Hrange. }
    rewrite !schedule_warmup by lia.
    assert (IZR s <= IZR t) by (apply IZR_le; lia). lra.
  - intros s t Hst. destruct (Z.le_gt_cases 1000 t) as [Ht|Ht].
    { rewrite (schedule_end t) by done. apply Hrange. }
    rewrite !schedule_decay by lia.
    pose proof (decay_angle_range s ltac:(lia)) as [Hs0 Hs1].
    pose proof (decay_angle_range t ltac:(lia)) as [Ht0 Ht1].
    assert (Hcos : cos (PI * IZR (t - 50) / 950)
                   <= cos (PI * IZR (s - 50) / 950)).
    { apply cos_decr_1; try lra.
      assert (IZR (s - 50) <= IZR (t - 50)) by (apply IZR_le; lia). nra. }
    lra.
Qed.

Lemma zip_with_plus_zero (c : R) (ra rb : list R) :
  c = 0 → length ra = length rb →
  zip_with (λ p u, p + u) ra ((λ x, c * x) <$> rb) = ra.
Proof.
  intros ->. revert rb.
  induction ra as [|a ra IH]; intros [|b rb] Hl; try done.
  cbn in *. f_equal; [lra|]. apply IH. lia.
Qed.

Lemma zip_with_rows_plus_zero (c : R) (a b : list (list R)) :
  c = 0 → row_lengths a = row_lengths b →
  zip_with (zip_with (λ p u, p + u)) a (map2d (λ x, c * x) b) = a.
Proof.
  intros Hc. revert b.
  induction a as [|ra a IH]; intros [|rb b] Hl; try done.
  cbn in *. injection Hl as Hr Hrest.
  f_equal; [by apply zip_with_plus_zero|by apply IH].
Qed.

(** Updates that are a tree scaled by 0 leave the parameters as they are. *)
Lemma apply_updates_scaled_by_zero (c : R)
    (params u params' : gmap string (list (list R))) :
  c = 0 → apply_updates params (tree_map (λ x, c * x) u) = Some params' →
  params' = params.
Proof.
  intros Hc. unfold apply_updates, tree_map2.
  destruct (decide _) as [Hs|]; [|done]. intros [= <-].
  apply map_eq. intros k. rewrite map_lookup_zip_with.
  pose proof (f_equal (.!! k) Hs) as Hk. cbn in Hk.
  unfold tree_shape, tree_map in Hk. rewrite !lookup_fmap in Hk.
  unfold tree_map. rewrite lookup_fmap.
  destruct (params !! k) as [a|], (u !! k) as [b|]; cbn in *; try done.
  f_equal. apply zip_with_rows_plus_zero; [done|].
  injection Hk as ->. apply row_lengths_map2d.
Qed.

(** X15.  The second run starts at rate 0: its first step, and any step taken
    when the schedule is at 0, returns the parameters it was given; only
    the step count advances. *)
Theorem clipped_adamw_step_at_rate_0 grad :
  (∀ params, schedule_count (init clipped_adamw_optimizer params) = 0%Z) ∧
  ∀ params st batch labels params' st' value,
    schedule (schedule_count st) = 0 →
    step grad clipped_adamw_optimizer params st batch labels
    = Some (params', st', value) →
    params' = params
    ∧ schedule_count st' = safe_int32_increment (schedule_count st).
Proof.
  split; [reflexivity|].
  intros params st batch labels params' st' value Hrate. unfold step.
  destruct (value_and_grad grad loss params (promote batch) labels)
    as [[v g]|]; [|done].
  cbn -[clipped_adamw_optimizer].
  rewrite clipped_adamw_optimizer_update, adamw_update.
  destruct (update (scale_by_adam 0.9 0.999 1e-8 0) _ _ params)
    as [[u s]|]; [|done].
  cbn -[schedule Z.pow_pos]. destruct (tree_map2 _ u params) as [u'|]; [|done].
  cbn -[schedule Z.pow_pos].
  destruct (apply_updates params _) as [p|] eqn:Happ; [|done].
  cbn -[schedule Z.pow_pos]. intros [= <- <- _].
  split; [|reflexivity].
  apply (apply_updates_scaled_by_zero (- schedule (schedule_count st))
           params u' p); [|exact Happ].
  rewrite Hrate. lra.
Qed.

Lemma clipped_adamw_step_at_rate_0_witness :
  ∃ params' st' value,
    step zero_grad clipped_adamw_optimizer (initial_params (λ _ _ _, 0))
         (init clipped_adamw_optimizer (initial_params (λ _ _ _, 0)))
         [replicate 8 1%Z] [[0; 1]]
    = Some (params', st', value)
    ∧ params' = initial_params (λ _ _ _, 0)
    ∧ schedule_count st' = 1%Z.
Proof.
  destruct (clipped_adamw_optimizer_preserves param_shape)
    as (state_ok & Hinit & Hupd).
  destruct (step_ok zero_grad clipped_adamw_optimizer state_ok
              (initial_params (λ _ _ _, 0))
              (init clipped_adamw_optimizer (initial_params (λ _ _ _, 0)))
              [replicate 8 1%Z] [[0; 1]] zero_grad_like_params Hupd)
    as (params' & st' & value & Hstep & _).
  { apply tree_shape_initial_params. }
  { apply Hinit, tree_shape_initial_params. }
  { by exists 0%nat. }
  exists params', st', value. split; [exact Hstep|].
  apply (proj2 (clipped_adamw_step_at_rate_0 zero_grad)
           (initial_params (λ _ _ _, 0))
           (init clipped_adamw_optimizer (initial_params (λ _ _ _, 0)))
           [replicate 8 1%Z] [[0; 1]] params' st' value);
    [|exact Hstep].
  apply schedule_before. reflexivity.
Defined.

End MoreOptimizerTheorems.

Section MoreFitTheorems.
Import Training.
Local Open Scope R_scope.

Lemma read_dict_inv (l : loc) (w : world) d w' :
  read_dict l w = Some (d, w') → heap w !! l = Some (ODict d) ∧ w' = w.
Proof.
  unfold read_dict. rewrite bind_run. unfold read, lift.
  destruct (heap w !! l) as [[| |]|]; cbn; try done. by intros [= -> ->].
Qed.

Lemma read_uint8_inv (l : loc) (w : world) a w' :
  read_uint8 l w = Some (a, w') → heap w !! l = Some (OUint8 a) ∧ w' = w.
Proof.
  unfold read_uint8. rewrite bind_run. unfold read, lift.
  destruct (heap w !! l) as [[| |]|]; cbn; try done. by intros [= -> ->].
Qed.

Lemma read_float32_inv (l : loc) (w : world) a w' :
  read_float32 l w = Some (a, w') → heap w !! l = Some (OFloat32 a) ∧ w' = w.
Proof.
  unfold read_float32. rewrite bind_run. unfold read, lift.
  destruct (heap w !! l) as [[| |]|]; cbn; try done. by intros [= -> ->].
Qed.

Lemma length_enumerate {A : Type} (l : list A) :
  length (enumerate l) = length l.
Proof. unfold enumerate. rewrite length_zip_with, length_seq. lia. Qed.

(** Where the loop of [fit] returns, it has taken the steps in order and
    all it did is to add one parameter record per step and to print. *)
Lemma fit_loop_sound grad opt :
  ∀ items pl st w p pl' w',
    heap w !! pl = Some (ODict p) →
    fit_loop grad opt items pl st w = Some (pl', w') →
    ∃ final lines,
      steps_in_order grad opt items p st = Some (final, lines) ∧
      heap w' !! pl' = Some (ODict final) ∧
      stdout w' = stdout w ++ lines ∧
      heap w ⊆ heap w' ∧
      size (heap w') = (size (heap w) + length items)%nat ∧
      (items = [] → pl' = pl ∧ w' = w) ∧
      (items ≠ [] → heap w !! pl' = None).
Proof.
  induction items as [|[i [batch labels]] items IH];
    intros pl st w p pl' w' Hpl Hloop.
  - cbn in Hloop. injection Hloop as <- <-. exists p, [].
    rewrite app_nil_r. cbn. rewrite Nat.add_0_r. by repeat split.
  - cbn [fit_loop] in Hloop.
    rewrite bind_run, (read_dict_run pl p w Hpl), bind_run in Hloop.
    unfold lift at 1 in Hloop.
    destruct (step grad opt p st batch labels) as [[[p' st'] v]|] eqn:Hstep;
      [|done].
    cbn [fmap option_fmap option_map] in Hloop.
    destruct (alloc_run (ODict p') w) as (l & Halloc & Hfresh).
    rewrite bind_run, Halloc, bind_run in Hloop.
    set (w1 := World (<[l := ODict p']> (heap w)) (stdout w)) in *.
    set (w2 := if (i mod 100 =? 0)%nat
               then World (heap w1) (stdout w1 ++ [Line i v]) else w1).
    assert (Hheap2 : heap w2 = <[l := ODict p']> (heap w)).
    { unfold w2. by destruct (i mod 100 =? 0)%nat. }
    assert (Hout2 : stdout w2
                    = stdout w ++ (if (i mod 100 =? 0)%nat
                                   then [Line i v] else [])).
    { unfold w2. destruct (i mod 100 =? 0)%nat; [done|].
      by rewrite app_nil_r. }
    replace ((if (i mod 100 =? 0)%nat then print (Line i v) else mret ()) w1)
      with (Some ((), w2)) in Hloop
      by (unfold w2; by destruct (i mod 100 =? 0)%nat).
    destruct (IH l st' w2 p' pl' w') as (final & lines & Hsteps & Hfinal
                                        & Hout & Hsub & Hsize & Hnil & Hcons);
      [by rewrite Hheap2, lookup_insert_eq|exact Hloop|].
    exists final,
      ((if (i mod 100 =? 0)%nat then [Line i v] else []) ++ lines).
    split.
    { cbn [steps_in_order]. rewrite Hstep. cbn. rewrite Hsteps. done. }
    split; [done|].
    split; [by rewrite Hout, Hout2, app_assoc|].
    assert (Hsub2 : heap w ⊆ heap w2).
    { rewrite Hheap2. by apply insert_subseteq. }
    split; [by etrans|].
    split.
    { rewrite Hsize, Hheap2, map_size_insert_None by done. cbn. lia. }
    split; [done|]. intros _.
    destruct items as [|item items].
    + destruct (Hnil eq_refl) as [-> _]. exact Hfresh.
    + eapply lookup_weaken_None; [|exact Hsub2]. by apply Hcons.
Qed.

(** [fit] where it returns: the steps it has taken and what it did to the
    heap and the output. *)
Lemma fit_sound grad opt G pl w pl' w' :
  fit grad opt G pl w = Some (pl', w') →
  ∃ p0 td lb final lines,
    heap w !! pl = Some (ODict p0) ∧
    heap w !! TRAINING_DATA_ref G = Some (OUint8 td) ∧
    heap w !! LABELS_ref G = Some (OFloat32 lb) ∧
    steps_in_order grad opt (enumerate (zip td lb)) p0 (init opt p0)
    = Some (final, lines) ∧
    heap w' !! pl' = Some (ODict final) ∧
    stdout w' = stdout w ++ lines ∧
    heap w ⊆ heap w' ∧
    size (heap w') = (size (heap w) + length td `min` length lb)%nat ∧
    (td = [] ∨ lb = [] → pl' = pl ∧ w' = w) ∧
    (td ≠ [] → lb ≠ [] → heap w !! pl' = None).
Proof.
  unfold fit. rewrite bind_run.
  destruct (read_dict pl w) as [[p0 w0]|] eqn:Hp0; [|done].
  apply read_dict_inv in Hp0 as [Hp0 ->]. rewrite bind_run.
  destruct (read_uint8 (TRAINING_DATA_ref G) w) as [[td w0]|] eqn:Htd; [|done].
  apply read_uint8_inv in Htd as [Htd ->]. rewrite bind_run.
  destruct (read_float32 (LABELS_ref G) w) as [[lb w0]|] eqn:Hlb; [|done].
  apply read_float32_inv in Hlb as [Hlb ->].
  intros Hloop.
  destruct (fit_loop_sound grad opt _ pl (init opt p0) w p0 pl' w' Hp0 Hloop)
    as (final & lines & Hsteps & Hfinal & Hout & Hsub & Hsize & Hnil & Hcons).
  exists p0, td, lb, final, lines.
  rewrite length_enumerate, length_zip_with in Hsize.
  repeat (split; [done|]). split.
  - intros Hempty. apply Hnil.
    destruct Hempty as [-> | ->]; [done|by destruct td].
  - intros Htd' Hlb'. apply Hcons. by destruct td, lb.
Qed.

(** X16.  [fit] only allocates, whatever the optimizer, the gradients and the
    data: where it returns it has taken one step per pair of
    [zip(TRAINING_DATA, LABELS)] (as many as the shorter of the two has),
    each step has added one parameter record to the heap, every object that
    was there is still there unchanged, and the lines of the steps have been
    appended to the output.  The reference it returns is a new object,
    except when there was no step at all: then it is the argument
    itself. *)
Theorem fit_only_allocates grad opt G pl w pl' w' :
  fit grad opt G pl w = Some (pl', w') →
  ∃ p0 td lb final lines,
    heap w !! pl = Some (ODict p0) ∧
    heap w !! TRAINING_DATA_ref G = Some (OUint8 td) ∧
    heap w !! LABELS_ref G = Some (OFloat32 lb) ∧
    steps_in_order grad opt (enumerate (zip td lb)) p0 (init opt p0)
    = Some (final, lines) ∧
    heap w' !! pl' = Some (ODict final) ∧
    stdout w' = stdout w ++ lines ∧
    heap w ⊆ heap w' ∧
    size (heap w') = (size (heap w) + length td `min` length lb)%nat ∧
    (td = [] ∨ lb = [] → pl' = pl ∧ w' = w) ∧
    (td ≠ [] → lb ≠ [] → heap w !! pl' = None).
Proof. apply fit_sound. Qed.

Lemma fit_only_allocates_witness :
  ∃ pl' w' final lines,
    fit zero_grad adam_optimizer (Globals 0%nat 1%nat) 2%nat sevens_world
    = Some (pl', w') ∧
    steps_in_order zero_grad adam_optimizer
      (enumerate (zip (TRAINING_DATA sevens) (label_rows sevens)))
      (initial_params (λ _ _ _, 0))
      (init adam_optimizer (initial_params (λ _ _ _, 0)))
    = Some (final, lines) ∧
    heap w' !! pl' = Some (ODict final) ∧
    heap sevens_world ⊆ heap w' ∧
    heap sevens_world !! pl' = None.
Proof.
  destruct (fit_ok zero_grad adam_optimizer sevens (Globals 0%nat 1%nat)
              2%nat sevens_world (initial_params (λ _ _ _, 0))
              (label_rows sevens) zero_grad_like_params
              (adam_optimizer_preserves param_shape) randint_sevens
              eq_refl (LABELS_rows sevens randint_sevens) eq_refl eq_refl
              (tree_shape_initial_params _))
    as (pl' & w' & _ & _ & Hfit & _).
  destruct (fit_only_allocates _ _ _ _ _ _ _ Hfit)
    as (p0 & td & lb & final & lines & Hp0 & Htd & Hlb & Hsteps & Hfinal
        & _ & Hsub & _ & _ & Hnew).
  injection Hp0 as <-. injection Htd as <-. injection Hlb as <-.
  exists pl', w', final, lines.
  repeat (split; [done|]). by apply Hnew.
Defined.

Lemma lookup_enumerate {A : Type} (l : list A) (k i : nat) (x : A) :
  enumerate l !! k = Some (i, x) ↔ i = k ∧ l !! k = Some x.
Proof.
  unfold enumerate. rewrite lookup_zip_with. split.
  - intros H. destruct (seq 0 (length l) !! k) as [j|] eqn:Hj; [|done].
    cbn in H. destruct (l !! k) as [y|]; [|done]. cbn in H.
    injection H as <- <-. apply lookup_seq in Hj as [-> _]. done.
  - intros [-> Hx]. rewrite lookup_seq_lt by (by eapply lookup_lt_Some).
    cbn. by rewrite Hx.
Qed.

(** The loss a step reports is that of the parameters it was given: the
    line of the item at position [k] shows the loss of the parameters
    after the first [k] steps. *)
Lemma steps_in_order_line_at grad opt :
  ∀ items p st final lines,
    steps_in_order grad opt items p st = Some (final, lines) →
    ∀ k i batch labels, items !! k = Some (i, (batch, labels)) →
      ∃ pk lk v,
        steps_in_order grad opt (take k items) p st = Some (pk, lk) ∧
        loss pk (promote batch) labels = Some v ∧
        ((i mod 100 = 0)%nat → Line i v ∈ lines).
Proof.
  induction items as [|[i0 [batch0 labels0]] items IH];
    intros p st final lines Hsteps k i batch labels Hk; [done|].
  cbn [steps_in_order] in Hsteps.
  destruct (step grad opt p st batch0 labels0) as [[[p' st'] v0]|] eqn:Hstep;
    [|done].
  cbn -[Nat.modulo] in Hsteps.
  destruct (steps_in_order grad opt items p' st') as [[f ls]|] eqn:Hrest;
    [|done].
  cbn -[Nat.modulo] in Hsteps. injection Hsteps as <- <-.
  destruct k as [|k].
  - injection Hk as -> -> ->. exists p, [], v0.
    split; [done|]. split; [by eapply step_loss_value|].
    intros Hi. apply elem_of_app. left.
    change (99 - (Nat.divmod i 99 0 99).2)%nat with (i mod 100)%nat.
    rewrite (proj2 (Nat.eqb_eq _ _) Hi). by apply list_elem_of_singleton.
  - cbn in Hk.
    destruct (IH p' st' f ls Hrest k i batch labels Hk)
      as (pk & lk & v & Htake & Hloss & Hline).
    exists pk,
      ((if (i0 mod 100 =? 0)%nat then [Line i0 v0] else []) ++ lk), v.
    split.
    { cbn [take steps_in_order]. rewrite Hstep. cbn -[Nat.modulo].
      rewrite Htake. done. }
    split; [done|]. intros Hi. apply elem_of_app. right. by apply Hline.
Qed.

Lemma steps_in_order_line_from grad opt :
  ∀ items p st final lines,
    steps_in_order grad opt items p st = Some (final, lines) →
    ∀ ln, ln ∈ lines →
      ∃ k batch labels pk lk,
        items !! k = Some (line_step ln, (batch, labels)) ∧
        (line_step ln mod 100 = 0)%nat ∧
        steps_in_order grad opt (take k items) p st = Some (pk, lk) ∧
        loss pk (promote batch) labels = Some (line_loss ln).
Proof.
  induction items as [|[i0 [batch0 labels0]] items IH];
    intros p st final lines Hsteps ln Hln.
  - cbn in Hsteps. injection Hsteps as <- <-. by apply elem_of_nil in Hln.
  - cbn [steps_in_order] in Hsteps.
    destruct (step grad opt p st batch0 labels0) as [[[p' st'] v0]|] eqn:Hstep;
      [|done].
    cbn -[Nat.modulo] in Hsteps.
    destruct (steps_in_order grad opt items p' st') as [[f ls]|] eqn:Hrest;
      [|done].
    cbn -[Nat.modulo] in Hsteps. injection Hsteps as <- <-.
    apply elem_of_app in Hln as [Hln|Hln].
    + change (99 - (Nat.divmod i0 99 0 99).2)%nat with (i0 mod 100)%nat in Hln.
      destruct (Nat.eqb_spec (i0 mod 100) 0) as [Hi|Hi];
        [|by apply elem_of_nil in Hln].
      apply list_elem_of_singleton in Hln as ->.
      exists 0%nat, batch0, labels0, p, []. cbn -[Nat.modulo].
      split; [done|]. split; [done|]. split; [done|].
      by eapply step_loss_value.
    + destruct (IH p' st' f ls Hrest ln Hln)
        as (k & batch & labels & pk & lk & Hk & Hmod & Htake & Hloss).
      exists (S k), batch, labels, pk,
        ((if (i0 mod 100 =? 0)%nat then [Line i0 v0] else []) ++ lk).
      split; [done|]. split; [done|]. split; [|done].
      cbn [take steps_in_order]. rewrite Hstep. cbn -[Nat.modulo].
      rewrite Htake. done.
Qed.

(** X17.  What [fit] prints, whatever the optimizer and the data: for every
    step [k] that is a multiple of 100 the line [step k, loss: v], where
    [v] is the loss on batch [k] of the parameters as they were before the
    update of step [k], that is after the first [k] steps; and nothing
    else.  The loss of the parameters that [fit] returns is not printed. *)
Theorem printed_loss_is_of_params_before_the_update grad opt G pl w pl' w' :
  fit grad opt G pl w = Some (pl', w') →
  ∃ p0 td lb lines,
    heap w !! pl = Some (ODict p0) ∧
    heap w !! TRAINING_DATA_ref G = Some (OUint8 td) ∧
    heap w !! LABELS_ref G = Some (OFloat32 lb) ∧
    stdout w' = stdout w ++ lines ∧
    (∀ k batch labels, td !! k = Some batch → lb !! k = Some labels →
       ∃ pk lk v,
         steps_in_order grad opt (take k (enumerate (zip td lb))) p0
                        (init opt p0) = Some (pk, lk) ∧
         loss pk (promote batch) labels = Some v ∧
         ((k mod 100 = 0)%nat → Line k v ∈ lines)) ∧
    (∀ ln, ln ∈ lines →
       ∃ batch labels pk lk,
         td !! line_step ln = Some batch ∧
         lb !! line_step ln = Some labels ∧
         (line_step ln mod 100 = 0)%nat ∧
         steps_in_order grad opt
           (take (line_step ln) (enumerate (zip td lb))) p0 (init opt p0)
         = Some (pk, lk) ∧
         loss pk (promote batch) labels = Some (line_loss ln)).
Proof.
  intros Hfit.
  destruct (fit_sound _ _ _ _ _ _ _ Hfit)
    as (p0 & td & lb & final & lines & Hp0 & Htd & Hlb & Hsteps & _ & Hout
        & _).
  exists p0, td, lb, lines. repeat (split; [done|]). split.
  - intros k batch labels Hb Hl.
    apply (steps_in_order_line_at grad opt _ _ _ _ _ Hsteps k k batch labels).
    apply lookup_enumerate. split; [done|].
    rewrite lookup_zip_with, Hb. cbn. by rewrite Hl.
  - intros ln Hln.
    destruct (steps_in_order_line_from grad opt _ _ _ _ _ Hsteps ln Hln)
      as (k & batch & labels & pk & lk & Hk & Hmod & Htake & Hloss).
    apply lookup_enumerate in Hk as [Hstep Hk]. rewrite <- Hstep in Htake.
    rewrite <- Hstep in Hk. rewrite lookup_zip_with in Hk.
    destruct (td !! line_step ln) as [b|] eqn:Hb; [|done]. cbn in Hk.
    destruct (lb !! line_step ln) as [l|] eqn:Hl; [|done]. cbn in Hk.
    injection Hk as -> ->. by exists batch, labels, pk, lk.
Qed.

Lemma printed_loss_is_of_params_before_the_update_witness :
  ∃ pl' w' lines batch labels pk lk v,
    fit zero_grad adam_optimizer (Globals 0%nat 1%nat) 2%nat sevens_world
    = Some (pl', w') ∧
    stdout w' = lines ∧
    TRAINING_DATA sevens !! 100%nat = Some batch ∧
    label_rows sevens !! 100%nat = Some labels ∧
    steps_in_order zero_grad adam_optimizer
      (take 100 (enumerate (zip (TRAINING_DATA sevens) (label_rows sevens))))
      (initial_params (λ _ _ _, 0))
      (init adam_optimizer (initial_params (λ _ _ _, 0)))
    = Some (pk, lk) ∧
    loss pk (promote batch) labels = Some v ∧
    Line 100 v ∈ lines.
Proof.
  destruct (fit_ok zero_grad adam_optimizer sevens (Globals 0%nat 1%nat)
              2%nat sevens_world (initial_params (λ _ _ _, 0))
              (label_rows sevens) zero_grad_like_params
              (adam_optimizer_preserves param_shape) randint_sevens
              eq_refl (LABELS_rows sevens randint_sevens) eq_refl eq_refl
              (tree_shape_initial_params _))
    as (pl' & w' & _ & _ & Hfit & _).
  destruct (printed_loss_is_of_params_before_the_update _ _ _ _ _ _ _ Hfit)
    as (p0 & td & lb & lines & Hp0 & Htd & Hlb & Hout & Hat & _).
  injection Hp0 as <-. injection Htd as <-. injection Hlb as <-.
  destruct (lookup_lt_is_Some_2 (TRAINING_DATA sevens) 100) as [batch Hb].
  { rewrite (proj1 (TRAINING_DATA_shape sevens randint_sevens)).
    unfold NUM_TRAIN_STEPS. lia. }
  destruct (lookup_lt_is_Some_2 (label_rows sevens) 100) as [labels Hl].
  { unfold label_rows, sevens. rewrite length_fmap, length_replicate.
    unfold NUM_TRAIN_STEPS. lia. }
  destruct (Hat 100%nat batch labels Hb Hl) as (pk & lk & v & Htake & Hloss & Hline).
  exists pl', w', lines, batch, labels, pk, lk, v.
  repeat (split; [done|]). by apply Hline.
Defined.


(** [jnp.dot] against the 8 rows of [params['hidden']] raises on rows that
    do not have 8 entries. *)
Lemma net_wrong_width x (params : gmap string (list (list R))) hidden
    (n c : nat) :
  params !! "hidden" = Some hidden → length hidden = 8%nat →
  has_shape (S n) c x → c ≠ 8%nat → net x params = None.
Proof.
  intros Hh Hlen Hx Hc. unfold net. rewrite Hh. cbn.
  destruct hidden as [|h0 hidden]; [done|]. unfold dot.
  rewrite decide_False; [done|]. intros [Hx' _].
  rewrite Hlen, (has_shape_length _ _ _ Hx) in Hx'.
  unfold has_shape in Hx, Hx'. rewrite Hx in Hx'. cbn in Hx'. congruence.
Qed.

Lemma step_wrong_width grad opt (params : gmap string (list (list R)))
    (st : OptState opt) batch labels (n c : nat) :
  tree_shape params = param_shape →
  has_shape (S n) c batch → c ≠ 8%nat →
  step grad opt params st batch labels = None.
Proof.
  intros (_ & hidden & output & Hh & Hhs & _)%param_shape_inv Hb Hc.
  unfold step, value_and_grad, loss.
  rewrite (net_wrong_width (promote batch) params hidden n c); try done.
  - by apply has_shape_length in Hhs.
  - by apply has_shape_promote.
Qed.

(** A step that returns keeps the keys and shapes of the parameters. *)
Lemma step_keeps_shape grad opt (state_ok : OptState opt → Prop)
    params st batch labels params' st' value :
  grad_like_params grad →
  (∀ grads state params,
     tree_shape grads = param_shape → tree_shape params = param_shape →
     state_ok state →
     ∃ updates state',
       update opt grads state params = Some (updates, state')
       ∧ tree_shape updates = param_shape ∧ state_ok state') →
  tree_shape params = param_shape → state_ok st →
  step grad opt params st batch labels = Some (params', st', value) →
  tree_shape params' = param_shape ∧ state_ok st'.
Proof.
  intros Hgrad Hupd Hp Hst. unfold step, value_and_grad.
  destruct (loss params (promote batch) labels) as [v|] eqn:Hv; [|done].
  destruct (Hgrad loss params (promote batch) labels v Hv) as (g & Hg & Hgs).
  cbn. rewrite Hg. cbn.
  destruct (Hupd g st params) as (u & st1 & Hu & Hus & Hst1);
    [congruence|done|done|].
  rewrite Hu. cbn.
  destruct (apply_updates_ok params u) as (p1 & Hp1 & Hps); [congruence|].
  rewrite Hp1. cbn. intros [= <- <- _]. split; [congruence|done].
Qed.

Lemma fit_loop_wrong_width grad opt (state_ok : OptState opt → Prop) :
  grad_like_params grad →
  (∀ grads state params,
     tree_shape grads = param_shape → tree_shape params = param_shape →
     state_ok state →
     ∃ updates state',
       update opt grads state params = Some (updates, state')
       ∧ tree_shape updates = param_shape ∧ state_ok state') →
  ∀ items,
    Exists (λ item : nat * (list (list Z) * list (list R)),
              ∃ n c : nat, has_shape (S n) c item.2.1 ∧ c ≠ 8%nat) items →
    ∀ pl st w p,
      heap w !! pl = Some (ODict p) → tree_shape p = param_shape →
      state_ok st →
      fit_loop grad opt items pl st w = None.
Proof.
  intros Hgrad Hupd items Hbad.
  induction Hbad as [[i [batch labels]] items (n & c & Hb & Hc)
                    |[i [batch labels]] items _ IH];
    intros pl st w p Hpl Hp Hst; cbn [fit_loop];
    rewrite bind_run, (read_dict_run pl p w Hpl), bind_run; unfold lift at 1.
  - cbn in Hb. by rewrite (step_wrong_width grad opt p st batch labels n c).
  - destruct (step grad opt p st batch labels) as [[[p' st'] v]|] eqn:Hstep;
      [|done].
    destruct (step_keeps_shape grad opt state_ok p st batch labels p' st' v)
      as [Hp' Hst']; try done.
    cbn [fmap option_fmap option_map].
    destruct (alloc_run (ODict p') w) as (l & Halloc & Hfresh).
    rewrite bind_run, Halloc, bind_run.
    destruct (i mod 100 =? 0)%nat; cbn;
      apply (IH l st' _ p'); try done; cbn; by rewrite lookup_insert_eq.
Qed.

(** X18.  [fit] raises when some batch it gets to has rows that are not 8 wide:
    the steps before that batch may have been taken, but there is no
    result. *)
Theorem fit_raises_on_batch_of_wrong_width grad opt G pl w p0 td lb
    (k : nat) batch (n c : nat) :
  grad_like_params grad → preserves_structure param_shape opt →
  heap w !! pl = Some (ODict p0) → tree_shape p0 = param_shape →
  heap w !! TRAINING_DATA_ref G = Some (OUint8 td) →
  heap w !! LABELS_ref G = Some (OFloat32 lb) →
  td !! k = Some batch → (k < length lb)%nat →
  has_shape (S n) c batch → c ≠ 8%nat →
  fit grad opt G pl w = None.
Proof.
  intros Hgrad (state_ok & Hinit & Hupd) Hpl Hp0 Htd Hlb Hk Hklb Hb Hc.
  unfold fit. rewrite bind_run, (read_dict_run pl p0 w Hpl).
  rewrite bind_run, (read_uint8_run _ _ w Htd).
  rewrite bind_run, (read_float32_run _ _ w Hlb).
  apply (fit_loop_wrong_width grad opt state_ok Hgrad Hupd) with (p := p0);
    [|done|done|by apply Hinit].
  destruct (lookup_lt_is_Some_2 lb k Hklb) as [labels Hl].
  apply Exists_exists. exists (k, (batch, labels)). split.
  - apply (list_elem_of_lookup_2 _ k), lookup_enumerate. split; [done|].
    rewrite lookup_zip_with, Hk. cbn. by rewrite Hl.
  - by exists n, c.
Qed.

Lemma fit_raises_on_batch_of_wrong_width_witness :
  fit zero_grad adam_optimizer (Globals 0%nat 1%nat) 2%nat
      (World {[ 0%nat := OUint8 [[[1; 0; 1]]]%Z;
                1%nat := OFloat32 [[[0; 1]]];
                2%nat := ODict (initial_params (λ _ _ _, 0)) ]} [])
  = None.
Proof.
  apply (fit_raises_on_batch_of_wrong_width zero_grad adam_optimizer
           (Globals 0%nat 1%nat) 2%nat _ (initial_params (λ _ _ _, 0))
           [[[1; 0; 1]]]%Z [[[0; 1]]] 0 [[1; 0; 1]]%Z 0 3).
  - exact zero_grad_like_params.
  - apply adam_optimizer_preserves.
  - reflexivity.
  - apply tree_shape_initial_params.
  - reflexivity.
  - reflexivity.
  - reflexivity.
  - cbn. lia.
  - reflexivity.
  - lia.
Defined.


End MoreFitTheorems.
